(** * A.EDUCACAO frontend: media resolution, exercise parsing, assessment flow

    A shallow embedding of the TypeScript sources

      - [frontend/src/utils/mediaUtils.ts]            (validateMediaUrl, getFileType)
      - [frontend/src/components/content/AdaptiveResponse.tsx] (extractFilePath)
      - [frontend/src/components/content/ExerciseContent.tsx]  (fetchExercises,
                                                               parseTextExercises)
      - [components/content/InteractivePrompt.tsx]    (the assessment flow)

    together with the properties the specification states about them.

    JavaScript strings are sequences of UTF-16 code units; they are modelled
    as [list N].  The handful of [String.prototype] and [RegExp] operations
    the sources call are modelled in the modules [JS] and [Regex].  A thrown
    exception is the result [None]; what the platform supplies (the
    environment variable, [fetch], [JSON.parse], the analysis service) is a
    parameter of the function that uses it. *)

From Stdlib Require Import String Ascii DecimalString.
From Stdlib Require Import List Arith NArith Bool Lia.
Import ListNotations.

Local Open Scope N_scope.
Local Open Scope list_scope.

(* ================================================================== *)
(** * Part I: definitions                                              *)
(* ================================================================== *)

(** ** JavaScript strings *)

Module JS.

Definition jsstring := list N.

(** UTF-8 bytes to UTF-16 code units (a code point above U+FFFF becomes a
    surrogate pair). *)
Fixpoint utf8_decode (bs : list N) : jsstring :=
  match bs with
  | [] => []
  | b1 :: r1 =>
      if b1 <? 128 then b1 :: utf8_decode r1
      else if b1 <? 224 then
        match r1 with
        | b2 :: r2 => ((b1 mod 32) * 64 + b2 mod 64) :: utf8_decode r2
        | [] => [b1]
        end
      else if b1 <? 240 then
        match r1 with
        | b2 :: b3 :: r3 =>
            ((b1 mod 16) * 4096 + (b2 mod 64) * 64 + b3 mod 64)
              :: utf8_decode r3
        | _ => b1 :: r1
        end
      else
        match r1 with
        | b2 :: b3 :: b4 :: r4 =>
            let cp := (b1 mod 8) * 262144 + (b2 mod 64) * 4096
                      + (b3 mod 64) * 64 + b4 mod 64 - 65536 in
            (55296 + cp / 1024) :: (56320 + cp mod 1024) :: utf8_decode r4
        | _ => b1 :: r1
        end
  end.

(** A string literal of the sources as a JavaScript string. *)
Definition str (s : string) : jsstring :=
  utf8_decode (map N_of_ascii (list_ascii_of_string s)).

Definition is_empty (s : jsstring) : bool :=
  match s with [] => true | _ :: _ => false end.

(** Truthiness of a string value: the empty string is falsy. *)
Definition truthy (s : jsstring) : bool := negb (is_empty s).

Fixpoint eqb (a b : jsstring) : bool :=
  match a, b with
  | [], [] => true
  | x :: a', y :: b' => (x =? y) && eqb a' b'
  | _, _ => false
  end.

(** [s.startsWith(p)] *)
Fixpoint startsWith (s p : jsstring) {struct p} : bool :=
  match p with
  | [] => true
  | a :: p' =>
      match s with
      | [] => false
      | b :: s' => (a =? b) && startsWith s' p'
      end
  end.

(** [s.includes(p)] *)
Fixpoint includes (s p : jsstring) : bool :=
  match s with
  | [] => startsWith [] p
  | _ :: s' => startsWith s p || includes s' p
  end.

(** [s.indexOf(p)]: the first index at which [p] occurs; [None] stands
    for [-1]. *)
Fixpoint indexOf (s p : jsstring) : option nat :=
  if startsWith s p then Some O
  else
    match s with
    | [] => None
    | _ :: s' =>
        match indexOf s' p with
        | Some n => Some (S n)
        | None => None
        end
    end.

(** [s.split(sep)] for a non-empty separator: the pieces between the
    non-overlapping occurrences of [sep], found left to right.  [skip]
    counts the code units of a separator that is being stepped over and
    [cur] holds the current piece, reversed. *)
Fixpoint split_from (sep s : jsstring) (skip : nat) (cur : jsstring)
  : list jsstring :=
  match s with
  | [] => [rev cur]
  | c :: s' =>
      match skip with
      | S k => split_from sep s' k cur
      | O =>
          if startsWith s sep
          then rev cur :: split_from sep s' (length sep - 1) []
          else split_from sep s' 0 (c :: cur)
      end
  end.

Definition split (s sep : jsstring) : list jsstring := split_from sep s 0 [].

(** [arr.pop()]: the last element, [undefined] (here [None]) on []. *)
Fixpoint pop {A : Type} (l : list A) : option A :=
  match l with
  | [] => None
  | [x] => Some x
  | _ :: l' => pop l'
  end.

(** [v || ''] for an optional string [v]. *)
Definition or_empty (v : option jsstring) : jsstring :=
  match v with
  | Some (c :: s) => c :: s
  | _ => []
  end.

(** [String.prototype.toLowerCase], one code unit at a time.  ASCII and
    Latin-1 letters are mapped exactly; so are the code units above U+00FF
    whose lower-case form reaches back into U+0000..U+00FF (U+0130, U+0178,
    U+1E9E, U+212A, U+212B).  Every other code unit is left as it is: its
    lower-case form stays above U+00FF, where none of the comparisons made
    by the sources can tell the difference. *)
Definition lower_cu (c : N) : jsstring :=
  if (65 <=? c) && (c <=? 90) then [c + 32]
  else if (192 <=? c) && (c <=? 222) && negb (c =? 215) then [c + 32]
  else if c =? 304 then [105; 775]
  else if c =? 376 then [255]
  else if c =? 7838 then [223]
  else if c =? 8490 then [107]
  else if c =? 8491 then [229]
  else [c].

Definition toLowerCase (s : jsstring) : jsstring := flat_map lower_cu s.

(** White space in the sense of [trim()] and of the regular expression
    class [\s]. *)
Definition is_space (c : N) : bool :=
  ((9 <=? c) && (c <=? 13)) || (c =? 32) || (c =? 160) || (c =? 5760)
  || ((8192 <=? c) && (c <=? 8202)) || (c =? 8232) || (c =? 8233)
  || (c =? 8239) || (c =? 8287) || (c =? 12288) || (c =? 65279).

(** Line terminators, which the regular expression [.] does not match. *)
Definition is_line_terminator (c : N) : bool :=
  (c =? 10) || (c =? 13) || (c =? 8232) || (c =? 8233).

Fixpoint trimStart (s : jsstring) : jsstring :=
  match s with
  | [] => []
  | c :: s' => if is_space c then trimStart s' else s
  end.

Definition trim (s : jsstring) : jsstring :=
  rev (trimStart (rev (trimStart s))).

(** [s.replace(/^\/+/, '')]: the leading run of slashes is removed. *)
Fixpoint strip_leading_slashes (s : jsstring) : jsstring :=
  match s with
  | [] => []
  | c :: s' => if c =? 47 then strip_leading_slashes s' else s
  end.

(** [arr.includes(x)] for an array of strings. *)
Definition arr_includes (arr : list jsstring) (x : jsstring) : bool :=
  existsb (eqb x) arr.

End JS.

(** ** [utils/mediaUtils.ts] *)

Module MediaUtils.
Import JS.

Definition default_api_url : jsstring := str "http://localhost:8000".

(** [process.env.NEXT_PUBLIC_API_URL || 'http://localhost:8000'] *)
Definition apiUrl (env : option jsstring) : jsstring :=
  match env with
  | Some (c :: u) => c :: u
  | _ => default_api_url
  end.

Definition root_marker : jsstring := str "/processed_data/".

Definition mediaDirs : list jsstring :=
  [str "text/"; str "audio/"; str "videos/"; str "images/"; str "transcripts/"].

Definition video_exts : list jsstring :=
  [str "mp4"; str "avi"; str "mov"; str "mkv"; str "webm"].
Definition audio_exts : list jsstring :=
  [str "mp3"; str "wav"; str "ogg"; str "aac"; str "m4a"].
Definition image_exts : list jsstring :=
  [str "jpg"; str "jpeg"; str "png"; str "gif"; str "svg"; str "webp"].
Definition text_exts : list jsstring := [str "txt"; str "md"; str "pdf"].

(** [path.toLowerCase().split('.').pop() || ''] *)
Definition extension (path : jsstring) : jsstring :=
  or_empty (pop (split (toLowerCase path) (str "."))).

(** The three spellings line 50-52 look for. *)
Definition exercicio_accent : jsstring := str "exercício".
Definition exercicio_plain : jsstring := str "exercicio".
Definition exercise_en : jsstring := str "exercise".

(** The part of [validateMediaUrl] that keeps what follows the root
    marker: [cleanPath.split('/processed_data/')[1]] when the marker
    occurs, the path itself otherwise.  Indexing past the end of the
    array gives [undefined], on which the next method call would throw;
    that outcome is [None]. *)
Definition after_root_marker (url : jsstring) : option jsstring :=
  if includes url root_marker
  then nth_error (split url root_marker) 1
  else Some url.

Definition hasMediaDir (cleanPath : jsstring) : bool :=
  existsb (fun dir => startsWith cleanPath dir) mediaDirs.

(** The subdirectory inferred from the extension, lines 39-58. *)
Definition infer_subdir (cleanPath : jsstring) : jsstring :=
  let extension := extension cleanPath in
  if arr_includes video_exts extension then str "videos/" ++ cleanPath
  else if arr_includes audio_exts extension then str "audio/" ++ cleanPath
  else if arr_includes image_exts extension then str "images/" ++ cleanPath
  else if arr_includes text_exts extension then
    if includes (toLowerCase cleanPath) exercicio_accent
       || includes (toLowerCase cleanPath) exercicio_plain
       || includes (toLowerCase cleanPath) exercise_en
    then str "text/" ++ cleanPath
    else str "text/" ++ cleanPath
  else cleanPath.

(** [url.startsWith('http://') || url.startsWith('https://')] *)
Definition is_absolute_url (url : jsstring) : bool :=
  startsWith url (str "http://") || startsWith url (str "https://").

(** [cleanPath] as it stands at line 33, after the root marker and the
    leading slashes have been removed. *)
Definition cleanPath_of (url : jsstring) : option jsstring :=
  match after_root_marker url with
  | None => None
  | Some cleanPath => Some (strip_leading_slashes cleanPath)
  end.

(** [validateMediaUrl]; [env] is the value of [NEXT_PUBLIC_API_URL].
    [None] as a result stands for a thrown exception. *)
Definition validateMediaUrl (env : option jsstring) (url : jsstring)
  : option jsstring :=
  if is_empty url then Some []
  else if is_absolute_url url then Some url
  else
    let apiUrl := apiUrl env in
    if startsWith url root_marker then Some (apiUrl ++ url)
    else
      match cleanPath_of url with
      | None => None
      | Some cleanPath =>
          let cleanPath :=
            if negb (hasMediaDir cleanPath) then infer_subdir cleanPath
            else cleanPath in
          Some (apiUrl ++ root_marker ++ cleanPath)
      end.

Inductive FileType :=
  | video | audio | image | markdown | exercises | unknown.

Definition exercicios_accent : jsstring := str "exercícios".
Definition exercicios_plain : jsstring := str "exercicios".

Definition getFileType (filePath : jsstring) : FileType :=
  if is_empty filePath then unknown
  else
    let extension := extension filePath in
    let path := toLowerCase filePath in
    if arr_includes video_exts extension || includes path (str "/videos/")
    then video
    else if arr_includes audio_exts extension || includes path (str "/audio/")
    then audio
    else if arr_includes image_exts extension || includes path (str "/images/")
    then image
    else if arr_includes [str "json"] extension
            || includes path exercicios_accent
            || includes path exercicios_plain
    then exercises
    else if arr_includes [str "md"; str "txt"; str "pdf"] extension
            || includes path (str "/text/")
    then markdown
    else unknown.

End MediaUtils.

(** ** Regular expressions

    The fragment of ECMAScript regular expressions the sources use, with
    the backtracking semantics of the language: alternatives are tried
    left to right, a greedy quantifier tries the longest repetition first
    and a lazy one the shortest, and the first success is the result.
    Every quantifier in the sources is applied to a single-character
    atom, which is what [Rep] provides. *)

Module Regex.
Import JS.

Inductive regex :=
  | Eps
  | Chr (p : N -> bool)
  | Cat (r1 r2 : regex)
  | Alt (r1 r2 : regex)
  | Rep (greedy : bool) (min : nat) (max : option nat) (p : N -> bool)
  | Group (n : nat) (r : regex)
  | Bol.

(** Captures: the most recent binding of a group comes first. *)
Definition caps := list (nat * jsstring).

Fixpoint capture (n : nat) (c : caps) : option jsstring :=
  match c with
  | [] => None
  | (i, v) :: c' => if Nat.eqb i n then Some v else capture n c'
  end.

Definition can_take (max : option nat) : bool :=
  match max with Some O => false | _ => true end.

Definition dec_max (max : option nat) : option nat :=
  match max with Some n => Some (Nat.pred n) | None => None end.

(** [rep greedy p min max s k]: between [min] and [max] code units
    satisfying [p], then the continuation [k]. *)
Fixpoint rep (greedy : bool) (p : N -> bool) (min : nat) (max : option nat)
  (s : jsstring) (k : jsstring -> option caps) {struct s} : option caps :=
  let more (_ : unit) :=
    match s with
    | x :: s' =>
        if p x && can_take max
        then rep greedy p (Nat.pred min) (dec_max max) s' k
        else None
    | [] => None
    end in
  match min with
  | S _ => more tt
  | O =>
      if greedy
      then match more tt with Some r => Some r | None => k s end
      else match k s with Some r => Some r | None => more tt end
  end.

(** [m r total s c k]: match [r] at the front of [s], the rest of an
    input of [total] code units, then continue with [k]. *)
Fixpoint m (r : regex) (total : nat) (s : jsstring) (c : caps)
  (k : jsstring -> caps -> option caps) {struct r} : option caps :=
  match r with
  | Eps => k s c
  | Chr p =>
      match s with
      | x :: s' => if p x then k s' c else None
      | [] => None
      end
  | Cat r1 r2 => m r1 total s c (fun s' c' => m r2 total s' c' k)
  | Alt r1 r2 =>
      match m r1 total s c k with
      | Some x => Some x
      | None => m r2 total s c k
      end
  | Rep g min max p => rep g p min max s (fun s' => k s' c)
  | Group n r1 =>
      m r1 total s c
        (fun s' c' => k s' ((n, firstn (length s - length s') s) :: c'))
  | Bol => if Nat.eqb (length s) total then k s c else None
  end.

(** The search of [RegExp.prototype.exec] without the [g] flag: the
    leftmost start position at which the pattern matches. *)
Fixpoint exec_from (r : regex) (total : nat) (s : jsstring) : option caps :=
  match m r total s [] (fun _ c => Some c) with
  | Some c => Some c
  | None =>
      match s with
      | [] => None
      | _ :: s' => exec_from r total s'
      end
  end.

(** [s.match(r)]: the captures of the first match, [None] for [null]. *)
Definition exec (r : regex) (s : jsstring) : option caps :=
  exec_from r (length s) s.

(** [Canonicalize] of the [i] flag (without [u]): the upper-case form of
    a code unit.  Exact on U+0000..U+00FF, where every literal of the
    patterns lies; no code unit above U+00FF canonicalizes into that
    range, so comparing with a literal is exact everywhere. *)
Definition canon (c : N) : N :=
  if (97 <=? c) && (c <=? 122) then c - 32
  else if (224 <=? c) && (c <=? 254) && negb (c =? 247) then c - 32
  else if c =? 255 then 376
  else if c =? 181 then 924
  else c.

Definition cu_is (c : N) : N -> bool := fun x => x =? c.
Definition cu_is_i (c : N) : N -> bool := fun x => canon x =? canon c.

(** A literal string, case-sensitive and case-insensitive. *)
Definition lit (s : jsstring) : regex :=
  fold_right (fun c r => Cat (Chr (cu_is c)) r) Eps s.
Definition lit_i (s : jsstring) : regex :=
  fold_right (fun c r => Cat (Chr (cu_is_i c)) r) Eps s.

Definition seq (l : list regex) : regex := fold_right Cat Eps l.

Fixpoint alts (r : regex) (l : list regex) : regex :=
  match l with
  | [] => r
  | r' :: l' => Alt r (alts r' l')
  end.

Definition star (p : N -> bool) : regex := Rep true 0 None p.
Definition plus (p : N -> bool) : regex := Rep true 1 None p.
Definition lazy_star (p : N -> bool) : regex := Rep false 0 None p.
Definition opt (p : N -> bool) : regex := Rep true 0 (Some 1%nat) p.

(** Character classes. *)
Definition dot (c : N) : bool := negb (is_line_terminator c).
Definition digit (c : N) : bool := (48 <=? c) && (c <=? 57).
Definition alpha (c : N) : bool :=
  ((97 <=? c) && (c <=? 122)) || ((65 <=? c) && (c <=? 90)).
Definition alnum (c : N) : bool := alpha c || digit c.
(** [[^\s\n]] *)
Definition not_space (c : N) : bool := negb (is_space c || (c =? 10)).
(** The class of every code unit but the double quote, white space and
    the line feed. *)
Definition not_quote_space (c : N) : bool :=
  negb ((c =? 34) || is_space c || (c =? 10)).
(** [[^:]] *)
Definition not_colon (c : N) : bool := negb (c =? 58).

End Regex.

(** ** [components/content/AdaptiveResponse.tsx]: [extractFilePath] *)

Module AdaptiveResponse.
Import JS Regex.

Inductive PrimaryMediaType :=
  | pm_video | pm_audio | pm_image | pm_text | pm_exercises | pm_mixed.

(** The string a value of the union type is at run time. *)
Definition media_type_name (t : PrimaryMediaType) : jsstring :=
  match t with
  | pm_video => str "video"
  | pm_audio => str "audio"
  | pm_image => str "image"
  | pm_text => str "text"
  | pm_exercises => str "exercises"
  | pm_mixed => str "mixed"
  end.

(** The fields of [AnalyzeResponse] that the media pipeline reads. *)
Record AnalyzeResponse := {
  response : jsstring;
  user_id : jsstring;
  query_id : option jsstring;
  has_video_content : option bool;
  has_image_content : option bool;
  has_audio_content : option bool;
  file_path : option jsstring;
  primary_media_type : option PrimaryMediaType
}.

(** [/<!-- file_path: (.*?) -->/] *)
Definition marker_open : jsstring := str "<!-- file_path: ".
Definition marker_close : jsstring := str " -->".
Definition filePath_re : regex :=
  seq [lit marker_open; Group 1 (lazy_star dot); lit marker_close].

(** [/(?:Arquivo|File):\s*(\/[^\s\n]+|[a-zA-Z]:[\\\/][^\s\n]+|[^\s\n]+\.[a-zA-Z0-9]{2,4})/i] *)
Definition fileLine_re : regex :=
  seq [ Alt (lit_i (str "Arquivo")) (lit_i (str "File"));
        lit_i (str ":");
        star is_space;
        Group 1
          (alts (seq [lit_i (str "/"); plus not_space])
             [ seq [ Chr alpha; lit_i (str ":");
                     Chr (fun c => (c =? 92) || (c =? 47)); plus not_space ];
               seq [ plus not_space; lit_i (str ".");
                     Rep true 2 (Some 4%nat) alnum ] ]) ].

(** [(?:e1|e2|...)], case-insensitive. *)
Definition ext_alt (e : jsstring) (es : list jsstring) : regex :=
  alts (lit_i e) (map lit_i es).

Definition video_ext_re : regex :=
  ext_alt (str "mp4") [str "avi"; str "mov"; str "mkv"; str "webm"].
Definition audio_ext_re : regex :=
  ext_alt (str "mp3") [str "wav"; str "ogg"; str "aac"; str "m4a"].
Definition image_ext_re : regex :=
  ext_alt (str "jpg") [str "jpeg"; str "png"; str "gif"; str "svg"; str "webp"].

(** [/\(?(?:L1|L2|...):\s*(.*?\.(?:exts))\)?/i] *)
Definition labelled_re (l : jsstring) (ls : list jsstring) (exts : regex)
  : regex :=
  seq [ opt (cu_is_i 40); alts (lit_i l) (map lit_i ls); lit_i (str ":");
        star is_space;
        Group 1 (seq [lazy_star dot; lit_i (str "."); exts]);
        opt (cu_is_i 41) ].

(** [/Arquivo[^:]*:\s*(.*?\.(?:exts))/i] *)
Definition arquivo_re (exts : regex) : regex :=
  seq [ lit_i (str "Arquivo"); star not_colon; lit_i (str ":");
        star is_space;
        Group 1 (seq [lazy_star dot; lit_i (str "."); exts]) ].

(** [/(\/processed_data\/dir\/Q+)/i], with [Q] the class
    [not_quote_space]. *)
Definition rooted_re (dir : jsstring) : regex :=
  Group 1 (seq [lit_i (str "/processed_data/" ++ dir ++ str "/");
                plus not_quote_space]).

(** [/(dir\/Q+\.(?:exts))/i], with [Q] the class [not_quote_space]. *)
Definition subdir_re (dir : jsstring) (exts : regex) : regex :=
  Group 1 (seq [lit_i (dir ++ str "/"); plus not_quote_space;
                lit_i (str "."); exts]).

Definition Exercicios_txt : jsstring := str "Exercícios".

(** The [patterns] array, lines 151-180, in its order. *)
Definition patterns : list regex :=
  [ (* video *)
    labelled_re (str "Video") [str "Vídeo"] video_ext_re;
    arquivo_re video_ext_re;
    rooted_re (str "videos");
    subdir_re (str "videos") video_ext_re;
    (* audio *)
    labelled_re (str "Audio") [str "Áudio"] audio_ext_re;
    arquivo_re audio_ext_re;
    rooted_re (str "audio");
    subdir_re (str "audio") audio_ext_re;
    (* image *)
    labelled_re (str "Imagem") [str "Image"] image_ext_re;
    arquivo_re image_ext_re;
    rooted_re (str "images");
    subdir_re (str "images") image_ext_re;
    (* exercises *)
    labelled_re Exercicios_txt [str "Exercicios"; str "Exercises"]
      (ext_alt (str "json") [str "txt"]);
    arquivo_re (lit_i (str "json"));
    Group 1 (seq [lit_i (str "/processed_data/text/Exercícios");
                  lit_i (str "."); ext_alt (str "txt") [str "json"]]);
    Group 1 (seq [lit_i (str "text/Exercícios");
                  lit_i (str "."); ext_alt (str "txt") [str "json"]]);
    (* text *)
    labelled_re (str "Texto") [str "Text"]
      (ext_alt (str "txt") [str "md"; str "pdf"]);
    rooted_re (str "text");
    subdir_re (str "text") (ext_alt (str "txt") [str "md"; str "pdf"]) ].

(** [const match = text.match(re); if (match && match[1]) ...]: the
    first capture group of the first match when it is a non-empty string. *)
Definition match1 (re : regex) (text : jsstring) : option jsstring :=
  match exec re text with
  | Some c =>
      match capture 1 c with
      | Some (x :: v) => Some (x :: v)
      | _ => None
      end
  | None => None
  end.

(** The [for (const pattern of patterns)] loop. *)
Fixpoint first_match (ps : list regex) (text : jsstring) : option jsstring :=
  match ps with
  | [] => None
  | re :: ps' =>
      match match1 re text with
      | Some v => Some v
      | None => first_match ps' text
      end
  end.

(** The [defaultFiles] object, lines 202-208. *)
Definition defaultFiles : list (jsstring * jsstring) :=
  [ (str "video", str "videos/Dica do professor.mp4");
    (str "audio", str "audio/Dica do professor.mp3");
    (str "image", str "images/Infografico-1.jpg");
    (str "text", str "text/Apresentação.txt");
    (str "exercises", str "text/Exercícios.txt") ].

Fixpoint lookup (key : jsstring) (o : list (jsstring * jsstring))
  : option jsstring :=
  match o with
  | [] => None
  | (k, v) :: o' => if eqb k key then Some v else lookup key o'
  end.

(** [extractFilePath], lines 135-218; [None] is [null]. *)
Definition extractFilePath (data : AnalyzeResponse) (text : jsstring)
  : option jsstring :=
  match match1 filePath_re text with
  | Some v => Some v
  | None =>
  match match1 fileLine_re text with
  | Some v => Some v
  | None =>
  match first_match patterns text with
  | Some v => Some v
  | None =>
  match file_path data with
  | Some (c :: v) => Some (c :: v)
  | _ =>
  match primary_media_type data with
  | Some t =>
      let mediaType := toLowerCase (media_type_name t) in
      match lookup mediaType defaultFiles with
      | Some (c :: v) => Some (c :: v)
      | _ => None
      end
  | None => None
  end end end end end.

(** A response that carries its text and nothing else about media, as
    the rendering tests build them. *)
Definition text_only_response (text : jsstring) : AnalyzeResponse :=
  {| response := text;
     user_id := str "test-user";
     query_id := Some (str "full-path-test");
     has_video_content := None;
     has_image_content := None;
     has_audio_content := None;
     file_path := None;
     primary_media_type := None |}.

(** The same response with a declared primary media type. *)
Definition typed_response (text : jsstring) (t : PrimaryMediaType)
  : AnalyzeResponse :=
  {| response := text;
     user_id := str "test-user";
     query_id := Some (str "full-path-test");
     has_video_content := None;
     has_image_content := None;
     has_audio_content := None;
     file_path := None;
     primary_media_type := Some t |}.

End AdaptiveResponse.

(** ** [components/content/ExerciseContent.tsx] *)

Module ExerciseContent.
Import JS Regex.

Record Exercise := {
  question : jsstring;
  options : option (list jsstring);
  answer : option jsstring;
  explanation : option jsstring
}.

(** [/^(\d+)[.)](.+)/] *)
Definition question_re : regex :=
  seq [ Bol; Group 1 (plus digit); Chr (fun c => (c =? 46) || (c =? 41));
        Group 2 (plus dot) ].

(** [/^[a-zA-Z][).] (.+)/] *)
Definition option_re : regex :=
  seq [ Bol; Chr alpha; Chr (fun c => (c =? 41) || (c =? 46));
        lit (str " "); Group 1 (plus dot) ].

(** [/^(Resposta|Answer|Gabarito):\s*(.+)/i] *)
Definition answer_re : regex :=
  seq [ Bol;
        Group 1 (alts (lit_i (str "Resposta"))
                   [lit_i (str "Answer"); lit_i (str "Gabarito")]);
        lit_i (str ":"); star is_space; Group 2 (plus dot) ].

(** [/^(Explicação|Explanation):\s*(.+)/i] *)
Definition explanation_re : regex :=
  seq [ Bol;
        Group 1 (alts (lit_i (str "Explicação"))
                   [lit_i (str "Explanation")]);
        lit_i (str ":"); star is_space; Group 2 (plus dot) ].

(** [match[n]] for a group that takes part in every match of its
    pattern. *)
Definition group (n : nat) (c : caps) : jsstring :=
  match capture n c with
  | Some v => v
  | None => []
  end.

(** The variables of the loop of [parseTextExercises]. *)
Record parser := {
  exercises : list Exercise;
  currentExercise : option Exercise;
  collectingOptions : bool;
  currentOptions : list jsstring
}.

Definition parser_init : parser :=
  {| exercises := []; currentExercise := None;
     collectingOptions := false; currentOptions := [] |}.

Definition with_options (e : Exercise) (o : list jsstring) : Exercise :=
  {| question := question e; options := Some o;
     answer := answer e; explanation := explanation e |}.

Definition with_answer (e : Exercise) (a : jsstring) : Exercise :=
  {| question := question e; options := options e;
     answer := Some a; explanation := explanation e |}.

Definition with_explanation (e : Exercise) (x : jsstring) : Exercise :=
  {| question := question e; options := options e;
     answer := answer e; explanation := Some x |}.

Definition with_question (e : Exercise) (q : jsstring) : Exercise :=
  {| question := q; options := options e;
     answer := answer e; explanation := explanation e |}.

(** Lines 117-124 and 169-174: the exercise in progress is saved when
    its question is a non-empty string. *)
Definition save_current (st : parser) : parser :=
  match currentExercise st with
  | Some e =>
      if truthy (question e) then
        if collectingOptions st
        then {| exercises := exercises st ++ [with_options e (currentOptions st)];
                currentExercise := currentExercise st;
                collectingOptions := false;
                currentOptions := [] |}
        else {| exercises := exercises st ++ [e];
                currentExercise := currentExercise st;
                collectingOptions := collectingOptions st;
                currentOptions := currentOptions st |}
      else st
  | None => st
  end.

(** One iteration of the loop, lines 107-166, on [lines[i]]. *)
Definition parse_line (st : parser) (raw : jsstring) : parser :=
  let line := trim raw in
  if is_empty line then st
  else
    match exec question_re line with
    | Some qm =>
        let st' := save_current st in
        {| exercises := exercises st';
           currentExercise :=
             Some {| question := trim (group 2 qm); options := None;
                     answer := None; explanation := None |};
           collectingOptions := collectingOptions st';
           currentOptions := currentOptions st' |}
    | None =>
        match currentExercise st with
        | None => st
        | Some e =>
            match exec option_re line with
            | Some om =>
                {| exercises := exercises st;
                   currentExercise := Some e;
                   collectingOptions := true;
                   currentOptions :=
                     (if collectingOptions st then currentOptions st else [])
                       ++ [trim (group 1 om)] |}
            | None =>
                match exec answer_re line with
                | Some am =>
                    {| exercises := exercises st;
                       currentExercise := Some (with_answer e (trim (group 2 am)));
                       collectingOptions := collectingOptions st;
                       currentOptions := currentOptions st |}
                | None =>
                    match exec explanation_re line with
                    | Some xm =>
                        {| exercises := exercises st;
                           currentExercise :=
                             Some (with_explanation e (trim (group 2 xm)));
                           collectingOptions := collectingOptions st;
                           currentOptions := currentOptions st |}
                    | None =>
                        if negb (collectingOptions st)
                        then {| exercises := exercises st;
                                currentExercise :=
                                  Some (with_question e
                                          (question e ++ str " " ++ line));
                                collectingOptions := collectingOptions st;
                                currentOptions := currentOptions st |}
                        else st
                    end
                end
            end
        end
    end.

(** The loop and the final flush, on the array of lines. *)
Definition parse_lines (lines : list jsstring) : list Exercise :=
  let st := fold_left parse_line lines parser_init in
  match currentExercise st with
  | Some e =>
      if truthy (question e) then
        exercises st
          ++ [if collectingOptions st then with_options e (currentOptions st)
              else e]
      else exercises st
  | None => exercises st
  end.

Definition parseTextExercises (text : jsstring) : list Exercise :=
  parse_lines (split text [10]).

(** The question text a line starts an exercise with, if it is a
    numbered question line. *)
Definition question_text (raw : jsstring) : option jsstring :=
  if is_empty (trim raw) then None
  else
    match exec question_re (trim raw) with
    | Some qm => Some (trim (group 2 qm))
    | None => None
    end.

Fixpoint question_texts (lines : list jsstring) : list jsstring :=
  match lines with
  | [] => []
  | l :: ls =>
      match question_text l with
      | Some q => q :: question_texts ls
      | None => question_texts ls
      end
  end.

(** [in_order qs es]: the exercises [es] are, in order, those started by
    the question texts [qs]; each exercise begins with its question text
    (continuation lines may follow it), and only an empty question text
    can be left without an exercise. *)
Inductive in_order : list jsstring -> list Exercise -> Prop :=
  | in_order_nil : in_order [] []
  | in_order_keep q qs e es :
      startsWith (question e) q = true ->
      in_order qs es -> in_order (q :: qs) (e :: es)
  | in_order_drop qs es :
      in_order qs es -> in_order ([] :: qs) es.

(** *** [fetchExercises], lines 26-91 *)

(** A value produced by [JSON.parse].  The fields of an object are its
    own properties in the order of [Object.entries]; a number is kept as
    its numeral. *)
#[warnings="-register-all"]
Inductive json :=
  | JNull
  | JBool (b : bool)
  | JNum (numeral : jsstring)
  | JStr (s : jsstring)
  | JArr (items : list json)
  | JObj (fields : list (jsstring * json)).

Fixpoint get (key : jsstring) (fields : list (jsstring * json)) : option json :=
  match fields with
  | [] => None
  | (k, v) :: fields' => if eqb k key then Some v else get key fields'
  end.

(** [typeof value === 'object' && value !== null && 'question' in value] *)
Definition looks_like_exercise (value : json) : bool :=
  match value with
  | JObj fields =>
      match get (str "question") fields with Some _ => true | None => false end
  | _ => false
  end.

(** An element of the [exercises] state: a JSON value taken as it is, or
    a record built by [parseTextExercises]. *)
Inductive exercise_value :=
  | FromJson (v : json)
  | FromText (e : Exercise).

(** The body of the inner [try], lines 44-70.  [parsed] is the outcome
    of [JSON.parse(content)], [None] when it throws; the result is the
    list given to [setExercises], or [None] when the block throws (a
    [SyntaxError] from the parser, a [TypeError] on [null.exercises], or
    the error of line 68). *)
Definition json_exercises (parsed : option json) : option (list json) :=
  match parsed with
  | None => None
  | Some (JArr items) => Some items
  | Some JNull => None
  | Some (JObj fields) =>
      match get (str "exercises") fields with
      | Some (JArr items) => Some items
      | _ =>
          match filter looks_like_exercise (map snd fields) with
          | [] => None
          | v :: vs => Some (v :: vs)
          end
      end
  | Some (JBool _) | Some (JNum _) | Some (JStr _) => None
  end.

(** What [fetch] settles to: a rejection with an error message, or a
    response with its [ok] flag, status and body text. *)
Inductive fetch_outcome :=
  | Rejected (message : jsstring)
  | Response (ok : bool) (status : N) (body : jsstring).

(** The state of the component once [fetchExercises] has run. *)
Record view := {
  shown : list exercise_value;
  loading : bool;
  error : option jsstring
}.

(** [String(n)] for a status code. *)
Definition decimal (n : N) : jsstring :=
  str (DecimalString.NilZero.string_of_uint (N.to_uint n)).

(** The message of line 37, with the status of the response. *)
Definition http_error (status : N) : jsstring :=
  str "Erro ao carregar exercícios (" ++ decimal status ++ str ")".

(** The message of line 79. *)
Definition no_exercises_error : jsstring :=
  str "Não foi possível extrair exercícios do conteúdo".

Section Fetch.

(** The environment of the component: the API base URL, the network and
    the JSON parser of the platform. *)
Variable env : option jsstring.
Variable fetch : jsstring -> fetch_outcome.
Variable JSON_parse : jsstring -> option json.

Definition failed (message : jsstring) : view :=
  {| shown := []; loading := false; error := Some message |}.

Definition loaded (l : list exercise_value) : view :=
  {| shown := l; loading := false; error := None |}.

(** The [catch (jsonError)] block, lines 73-81. *)
Definition text_fallback (content : jsstring) : view :=
  match parseTextExercises content with
  | [] => failed no_exercises_error
  | e :: es => loaded (map FromText (e :: es))
  end.

(** Lines 42-81: JSON first, the text parser when the JSON block
    throws. *)
Definition exercises_of_content (content : jsstring) : view :=
  match json_exercises (JSON_parse content) with
  | Some items => loaded (map FromJson items)
  | None => text_fallback content
  end.

(** [fetchExercises], lines 26-91: the state the component is left in.
    The result is [None] only if [validateMediaUrl] threw, which it never
    does. *)
Definition fetchExercises (filePath : jsstring) : option view :=
  match MediaUtils.validateMediaUrl env filePath with
  | None => None
  | Some fileUrl =>
      match fetch fileUrl with
      | Rejected message => Some (failed message)
      | Response ok status content =>
          if negb ok then Some (failed (http_error status))
          else Some (exercises_of_content content)
      end
  end.

End Fetch.

End ExerciseContent.

(** ** [components/content/InteractivePrompt.tsx]

    The component is modelled as a state machine.  An event handler reads
    the state of the render it was created in (its closure) and queues
    updates; the updates of one event are applied together before the
    next event is handled. *)

Module InteractivePrompt.
Import JS.

Inductive QuestionType := multiple_choice | open_ended.

Record Choice := { value : jsstring; label : jsstring }.

(** [Question]; its fields [answer] and [isCorrect] are never written. *)
Record Question := {
  id : nat;
  text : jsstring;
  type : QuestionType;
  options : option (list Choice);
  userResponse : option jsstring
}.

(** The argument of [onComplete]. *)
Record AssessmentResult := {
  result_userId : jsstring;
  result_knowledgeGaps : list jsstring;
  result_preferredFormat : jsstring;
  result_level : jsstring
}.

(** The argument of [analyzeQuery]. *)
Record AnalyzeRequest := {
  query : jsstring;
  user_level : jsstring;
  preferred_format : jsstring;
  request_user_id : jsstring
}.

(** The [useState] cells of the component ([response] is never set). *)
Record state := {
  userId : jsstring;
  currentStep : nat;
  isLoading : bool;
  knowledgeGaps : list jsstring;
  preferredFormat : jsstring;
  userLevel : jsstring;
  currentQuestion : option Question;
  questions : list Question;
  userInput : jsstring;
  (** a count, or [None] for [NaN] *)
  formatPreferences : list (jsstring * option nat);
  assessmentComplete : bool;
  error : option jsstring
}.

Record props := {
  initialUserId : option jsstring;
  (** whether an [onComplete] callback was passed *)
  onComplete : bool
}.

(** The component together with the calls it has made to [onComplete],
    oldest first. *)
Record world := {
  ui : state;
  calls : list AssessmentResult
}.

Definition topics : list jsstring :=
  [str "HTML"; str "CSS"; str "JavaScript"; str "Acessibilidade Web";
   str "Responsividade"].

Definition level_choices : list Choice :=
  [ {| value := str "iniciante";
       label := str "Iniciante - Conheço pouco ou nada" |};
    {| value := str "intermediário";
       label := str "Intermediário - Tenho conhecimento básico" |};
    {| value := str "avançado";
       label := str "Avançado - Tenho bom domínio" |} ].

Definition format_choices : list Choice :=
  [ {| value := str "texto";
       label := str "Texto - Artigos e documentação escrita" |};
    {| value := str "vídeo";
       label := str "Vídeo - Aulas e tutoriais em vídeo" |};
    {| value := str "áudio";
       label := str "Áudio - Podcasts e explicações em áudio" |};
    {| value := str "imagem";
       label := str "Imagem - Infográficos e diagramas" |} ].

(** [topics.map((topic, index) => ...)], lines 67-76. *)
Fixpoint topic_questions (index : nat) (ts : list jsstring) : list Question :=
  match ts with
  | [] => []
  | topic :: ts' =>
      {| id := index + 1;
         text := str "Qual é seu nível de conhecimento em " ++ topic ++ str "?";
         type := multiple_choice;
         options := Some level_choices;
         userResponse := None |}
        :: topic_questions (S index) ts'
  end.

(** [generatedQuestions] after the [push] of lines 79-89. *)
Definition generatedQuestions : list Question :=
  topic_questions 0 topics
    ++ [ {| id := length topics + 1;
            text := str "Qual formato você prefere para aprender novos conteúdos?";
            type := multiple_choice;
            options := Some format_choices;
            userResponse := None |} ].

Definition knowledgeQuestions : list Question :=
  [ {| id := length topics + 2;
       text := str "O que é HTML e qual sua função no desenvolvimento web?";
       type := open_ended;
       options := None;
       userResponse := None |};
    {| id := length topics + 3;
       text := str "Descreva brevemente a estrutura básica de uma página HTML.";
       type := open_ended;
       options := None;
       userResponse := None |} ].

(** State setters. *)
Definition set_questions (st : state) (qs : list Question) : state :=
  {| userId := userId st; currentStep := currentStep st;
     isLoading := isLoading st; knowledgeGaps := knowledgeGaps st;
     preferredFormat := preferredFormat st; userLevel := userLevel st;
     currentQuestion := currentQuestion st; questions := qs;
     userInput := userInput st; formatPreferences := formatPreferences st;
     assessmentComplete := assessmentComplete st; error := error st |}.

Definition set_currentQuestion (st : state) (q : option Question) : state :=
  {| userId := userId st; currentStep := currentStep st;
     isLoading := isLoading st; knowledgeGaps := knowledgeGaps st;
     preferredFormat := preferredFormat st; userLevel := userLevel st;
     currentQuestion := q; questions := questions st;
     userInput := userInput st; formatPreferences := formatPreferences st;
     assessmentComplete := assessmentComplete st; error := error st |}.

Definition set_currentStep (st : state) (n : nat) : state :=
  {| userId := userId st; currentStep := n;
     isLoading := isLoading st; knowledgeGaps := knowledgeGaps st;
     preferredFormat := preferredFormat st; userLevel := userLevel st;
     currentQuestion := currentQuestion st; questions := questions st;
     userInput := userInput st; formatPreferences := formatPreferences st;
     assessmentComplete := assessmentComplete st; error := error st |}.

Definition set_userId (st : state) (u : jsstring) : state :=
  {| userId := u; currentStep := currentStep st;
     isLoading := isLoading st; knowledgeGaps := knowledgeGaps st;
     preferredFormat := preferredFormat st; userLevel := userLevel st;
     currentQuestion := currentQuestion st; questions := questions st;
     userInput := userInput st; formatPreferences := formatPreferences st;
     assessmentComplete := assessmentComplete st; error := error st |}.

Definition set_userInput (st : state) (i : jsstring) : state :=
  {| userId := userId st; currentStep := currentStep st;
     isLoading := isLoading st; knowledgeGaps := knowledgeGaps st;
     preferredFormat := preferredFormat st; userLevel := userLevel st;
     currentQuestion := currentQuestion st; questions := questions st;
     userInput := i; formatPreferences := formatPreferences st;
     assessmentComplete := assessmentComplete st; error := error st |}.

Definition set_knowledgeGaps (st : state) (g : list jsstring) : state :=
  {| userId := userId st; currentStep := currentStep st;
     isLoading := isLoading st; knowledgeGaps := g;
     preferredFormat := preferredFormat st; userLevel := userLevel st;
     currentQuestion := currentQuestion st; questions := questions st;
     userInput := userInput st; formatPreferences := formatPreferences st;
     assessmentComplete := assessmentComplete st; error := error st |}.

Definition set_preferredFormat (st : state) (f : jsstring) : state :=
  {| userId := userId st; currentStep := currentStep st;
     isLoading := isLoading st; knowledgeGaps := knowledgeGaps st;
     preferredFormat := f; userLevel := userLevel st;
     currentQuestion := currentQuestion st; questions := questions st;
     userInput := userInput st; formatPreferences := formatPreferences st;
     assessmentComplete := assessmentComplete st; error := error st |}.

Definition set_formatPreferences (st : state)
  (t : list (jsstring * option nat)) : state :=
  {| userId := userId st; currentStep := currentStep st;
     isLoading := isLoading st; knowledgeGaps := knowledgeGaps st;
     preferredFormat := preferredFormat st; userLevel := userLevel st;
     currentQuestion := currentQuestion st; questions := questions st;
     userInput := userInput st; formatPreferences := t;
     assessmentComplete := assessmentComplete st; error := error st |}.

Definition set_userLevel (st : state) (l : jsstring) : state :=
  {| userId := userId st; currentStep := currentStep st;
     isLoading := isLoading st; knowledgeGaps := knowledgeGaps st;
     preferredFormat := preferredFormat st; userLevel := l;
     currentQuestion := currentQuestion st; questions := questions st;
     userInput := userInput st; formatPreferences := formatPreferences st;
     assessmentComplete := assessmentComplete st; error := error st |}.

Definition set_assessmentComplete (st : state) (b : bool) : state :=
  {| userId := userId st; currentStep := currentStep st;
     isLoading := isLoading st; knowledgeGaps := knowledgeGaps st;
     preferredFormat := preferredFormat st; userLevel := userLevel st;
     currentQuestion := currentQuestion st; questions := questions st;
     userInput := userInput st; formatPreferences := formatPreferences st;
     assessmentComplete := b; error := error st |}.

Definition set_error (st : state) (e : option jsstring) : state :=
  {| userId := userId st; currentStep := currentStep st;
     isLoading := isLoading st; knowledgeGaps := knowledgeGaps st;
     preferredFormat := preferredFormat st; userLevel := userLevel st;
     currentQuestion := currentQuestion st; questions := questions st;
     userInput := userInput st; formatPreferences := formatPreferences st;
     assessmentComplete := assessmentComplete st; error := e |}.

Definition set_isLoading (st : state) (b : bool) : state :=
  {| userId := userId st; currentStep := currentStep st;
     isLoading := b; knowledgeGaps := knowledgeGaps st;
     preferredFormat := preferredFormat st; userLevel := userLevel st;
     currentQuestion := currentQuestion st; questions := questions st;
     userInput := userInput st; formatPreferences := formatPreferences st;
     assessmentComplete := assessmentComplete st; error := error st |}.

(** The [useState] initial values, lines 29-46. *)
Definition initial_state (p : props) : state :=
  {| userId := or_empty (initialUserId p);
     currentStep := 0;
     isLoading := false;
     knowledgeGaps := [];
     preferredFormat := str "texto";
     userLevel := str "intermediário";
     currentQuestion := None;
     questions := [];
     userInput := [];
     formatPreferences :=
       [(str "texto", Some 0%nat); (str "vídeo", Some 0%nat);
        (str "áudio", Some 0%nat); (str "imagem", Some 0%nat)];
     assessmentComplete := false;
     error := None |}.

(** [generateInitialQuestions], lines 65-112. *)
Definition generateInitialQuestions (st : state) : state :=
  set_currentStep
    (set_currentQuestion
       (set_questions st (generatedQuestions ++ knowledgeQuestions))
       (hd_error generatedQuestions))
    1.

(** [s.replace(pat, rep)] with a string pattern: the first occurrence. *)
Fixpoint replace_first (s pat rep : jsstring) : jsstring :=
  if startsWith s pat then rep ++ skipn (length pat) s
  else
    match s with
    | [] => []
    | c :: s' => c :: replace_first s' pat rep
    end.

Fixpoint tally_get (k : jsstring) (t : list (jsstring * option nat))
  : option (option nat) :=
  match t with
  | [] => None
  | (k', v) :: t' => if eqb k' k then Some v else tally_get k t'
  end.

Fixpoint tally_set (k : jsstring) (v : option nat)
  (t : list (jsstring * option nat)) : list (jsstring * option nat) :=
  match t with
  | [] => [(k, v)]
  | (k', v') :: t' =>
      if eqb k' k then (k, v) :: t' else (k', v') :: tally_set k v t'
  end.

(** [{...prev, [answer]: prev[answer] + 1}] *)
Definition tally_increment (answer : jsstring)
  (prev : list (jsstring * option nat)) : list (jsstring * option nat) :=
  tally_set answer
    (match tally_get answer prev with
     | Some (Some n) => Some (S n)
     | _ => None
     end)
    prev.

Definition is_level (r : jsstring) : bool :=
  eqb r (str "iniciante") || eqb r (str "intermediário")
  || eqb r (str "avançado").

Definition count_level (l : jsstring) (qs : list Question) : nat :=
  length (filter (fun q => eqb (or_empty (userResponse q)) l) qs).

(** [updateUserLevel], lines 159-191: the level with the most answers;
    of two levels with the same count the earlier one in the order
    iniciante, intermediário, avançado stays. *)
Definition updateUserLevel (st : state) (updatedQuestions : list Question)
  : state :=
  let levelQuestions :=
    filter (fun q => truthy (or_empty (userResponse q))
                     && is_level (or_empty (userResponse q)))
      updatedQuestions in
  match levelQuestions with
  | [] => st
  | _ :: _ =>
      let pick (acc : jsstring * nat) (level : jsstring) :=
        let count := count_level level levelQuestions in
        if Nat.ltb (snd acc) count then (level, count) else acc in
      let best :=
        fold_left pick
          [str "iniciante"; str "intermediário"; str "avançado"]
          (str "intermediário", 0%nat) in
      set_userLevel st (fst best)
  end.

(** [questions.findIndex(q => q.id === id)]; [None] for [-1]. *)
Fixpoint findIndex (i : nat) (qs : list Question) : option nat :=
  match qs with
  | [] => None
  | q :: qs' =>
      if Nat.eqb (id q) i then Some 0%nat
      else match findIndex i qs' with
           | Some n => Some (S n)
           | None => None
           end
  end.

Definition with_response (q : Question) (r : jsstring) : Question :=
  {| id := id q; text := text q; type := type q; options := options q;
     userResponse := Some r |}.

Section Component.

Variable P : props.
(** The analysis service: the [response] text of the reply, or [None]
    when the call fails. *)
Variable analyzeQuery : AnalyzeRequest -> option jsstring.

Definition analysis_query (q : Question) : jsstring :=
  str "Avalie esta resposta para a pergunta " ++ [34] ++ text q ++ [34]
    ++ str ": " ++ [34] ++ or_empty (userResponse q) ++ [34].

Definition gap_topic (q : Question) : jsstring :=
  if includes (text q) (str "HTML") then str "HTML"
  else if includes (text q) (str "CSS") then str "CSS"
  else if includes (text q) (str "JavaScript") then str "JavaScript"
  else str "Desenvolvimento Web".

(** The [for] loop of lines 201-227.  [closure] is the state the handler
    was created in, [st] the state with the updates queued so far; the
    result is [None] when a call to the analysis service failed, together
    with the updates queued until then. *)
Fixpoint analyse (closure : state) (st : state) (qs : list Question)
  : state * bool :=
  match qs with
  | [] => (st, true)
  | question :: qs' =>
      match analyzeQuery
              {| query := analysis_query question;
                 user_level := userLevel closure;
                 preferred_format := preferredFormat closure;
                 request_user_id := userId closure |} with
      | None => (st, false)
      | Some response =>
          let st' :=
            if includes (toLowerCase response) (str "incorreto")
               || includes (toLowerCase response) (str "incompleto")
            then
              let topic := gap_topic question in
              if negb (arr_includes (knowledgeGaps closure) topic)
              then set_knowledgeGaps st (knowledgeGaps st ++ [topic])
              else st
            else st in
          analyse closure st' qs'
      end
  end.

(** [completeAssessment], lines 194-248. *)
Definition completeAssessment (closure : state) (w : world)
  (finalQuestions : list Question) : world :=
  let openEndedQuestions :=
    filter (fun q => match type q with
                     | open_ended => truthy (or_empty (userResponse q))
                     | multiple_choice => false
                     end) finalQuestions in
  match analyse closure (ui w) openEndedQuestions with
  | (st, true) =>
      {| ui := set_isLoading (set_assessmentComplete st true) false;
         calls :=
           if onComplete P
           then calls w
                  ++ [ {| result_userId := userId closure;
                          result_knowledgeGaps := knowledgeGaps closure;
                          result_preferredFormat := preferredFormat closure;
                          result_level := userLevel closure |} ]
           else calls w |}
  | (st, false) =>
      {| ui := set_isLoading
                 (set_error st
                    (Some (str "Ocorreu um erro ao processar suas respostas. Tente novamente.")))
                 false;
         calls := calls w |}
  end.

(** [handleAnswer], lines 115-156. *)
Definition handleAnswer (w : world) (answer : jsstring) : world :=
  let closure := ui w in
  match currentQuestion closure with
  | None => w
  | Some cq =>
      let updatedQuestion := with_response cq answer in
      let updatedQuestions :=
        map (fun q => if Nat.eqb (id q) (id cq) then updatedQuestion else q)
          (questions closure) in
      let st1 := set_questions closure updatedQuestions in
      let st2 :=
        if includes (text cq) (str "formato você prefere")
        then set_formatPreferences (set_preferredFormat st1 answer)
               (tally_increment answer (formatPreferences st1))
        else st1 in
      let st3 :=
        if includes (text cq) (str "nível de conhecimento em") then
          match nth_error (split (text cq) (str "em ")) 1 with
          | None => None
          | Some rest =>
              let topic := replace_first rest (str "?") [] in
              let st :=
                if eqb answer (str "iniciante")
                then set_knowledgeGaps st2 (knowledgeGaps st2 ++ [topic])
                else st2 in
              Some (updateUserLevel st updatedQuestions)
          end
        else Some st2 in
      match st3 with
      | None =>
          (* a TypeError ends the handler; the updates queued so far stand *)
          {| ui := st2; calls := calls w |}
      | Some st3 =>
          let nextQuestionIndex :=
            match findIndex (id cq) (questions closure) with
            | Some i => S i
            | None => 0%nat
            end in
          if Nat.ltb nextQuestionIndex (length (questions closure))
          then {| ui := set_userInput
                          (set_currentQuestion st3
                             (nth_error (questions closure) nextQuestionIndex))
                          [];
                  calls := calls w |}
          else completeAssessment closure {| ui := st3; calls := calls w |}
                 updatedQuestions
      end
  end.

(** [startAssessment], lines 251-259. *)
Definition startAssessment (st : state) : state :=
  if is_empty (trim (userId st))
  then set_error st
         (Some (str "Por favor, informe um ID de usuário para continuar."))
  else generateInitialQuestions (set_error st None).

(** The button of the completion screen, lines 395-409. *)
Definition continueToContent (w : world) : world :=
  if onComplete P
  then {| ui := ui w;
          calls :=
            calls w
              ++ [ {| result_userId := userId (ui w);
                      result_knowledgeGaps := knowledgeGaps (ui w);
                      result_preferredFormat := preferredFormat (ui w);
                      result_level := userLevel (ui w) |} ] |}
  else w.

(** What is on screen, lines 429-441. *)
Definition initial_screen (st : state) : bool :=
  negb (isLoading st) && Nat.eqb (currentStep st) 0.

Definition question_screen (st : state) : option Question :=
  if negb (isLoading st) && Nat.ltb 0 (currentStep st)
     && negb (assessmentComplete st)
  then currentQuestion st
  else None.

Definition completion_screen (st : state) : bool :=
  negb (isLoading st) && assessmentComplete st.

(** Whether the "Próxima" button is shown and enabled, lines 292-350. *)
Definition next_enabled (st : state) : bool :=
  match question_screen st with
  | Some q =>
      match type q with
      | multiple_choice =>
          match options q with
          | Some _ => truthy (userInput st)
          | None => false
          end
      | open_ended => Nat.leb 5 (length (trim (userInput st)))
      end
  | None => false
  end.

Definition input_shown (st : state) : bool :=
  match question_screen st with
  | Some q =>
      match type q with
      | multiple_choice =>
          match options q with Some _ => true | None => false end
      | open_ended => true
      end
  | None => false
  end.

(** What the user can do. *)
Inductive event :=
  | TypeUserId (u : jsstring)
  | ClickStart
  | ChangeInput (i : jsstring)
  | ClickNext
  | ClickContinue.

(** The [useEffect] of lines 58-62. *)
Definition run_effect (w : world) : world :=
  if Nat.eqb (currentStep (ui w)) 0 && truthy (userId (ui w))
  then {| ui := generateInitialQuestions (ui w); calls := calls w |}
  else w.

Definition handle (w : world) (ev : event) : world :=
  match ev with
  | TypeUserId u =>
      if initial_screen (ui w)
      then {| ui := set_userId (ui w) u; calls := calls w |}
      else w
  | ClickStart =>
      if initial_screen (ui w) && negb (is_empty (trim (userId (ui w))))
      then {| ui := startAssessment (ui w); calls := calls w |}
      else w
  | ChangeInput i =>
      if input_shown (ui w)
      then {| ui := set_userInput (ui w) i; calls := calls w |}
      else w
  | ClickNext =>
      if next_enabled (ui w) then handleAnswer w (userInput (ui w)) else w
  | ClickContinue =>
      if completion_screen (ui w) then continueToContent w else w
  end.

Definition step (w : world) (ev : event) : world := run_effect (handle w ev).

(** The component once mounted. *)
Definition mount : world :=
  run_effect {| ui := initial_state P; calls := [] |}.

Definition run (trace : list event) : world := fold_left step trace mount.

End Component.

(** Choosing an answer and pressing "Próxima". *)
Definition answer_with (a : jsstring) : list event := [ChangeInput a; ClickNext].

(** The five topic-level questions all answered "iniciante". *)
Definition all_beginner : list event :=
  flat_map (fun _ => answer_with (str "iniciante")) topics.

(** A complete run: the topic levels, the format, the two open
    questions; [before_last_click] stops short of the last "Próxima". *)
Definition before_last_click : list event :=
  all_beginner ++ answer_with (str "vídeo")
    ++ answer_with (str "HTML é uma linguagem de marcação")
    ++ [ChangeInput (str "html, head e body")].

Definition complete_run : list event := before_last_click ++ [ClickNext].

(** A parent that passes a user id and a callback, and an analysis
    service that finds nothing to object to. *)
Definition sample_props : props :=
  {| initialUserId := Some (str "u1"); onComplete := true |}.

Definition sample_service (r : AnalyzeRequest) : option jsstring :=
  Some (str "Resposta correta.").

End InteractivePrompt.

(** ** [AdaptiveResponse.tsx]: formats, media blocks and feedback *)

Module AdaptiveResponseView.
Import JS MediaUtils AdaptiveResponse.

(** The formats of the media modal. *)
Inductive MediaFormat :=
  | fmt_video | fmt_audio | fmt_image | fmt_text | fmt_exercises | fmt_mixed.

Definition MediaFormat_eqb (a b : MediaFormat) : bool :=
  match a, b with
  | fmt_video, fmt_video | fmt_audio, fmt_audio | fmt_image, fmt_image
  | fmt_text, fmt_text | fmt_exercises, fmt_exercises
  | fmt_mixed, fmt_mixed => true
  | _, _ => false
  end.

(** [formats.includes(f)] *)
Definition formats_includes (formats : list MediaFormat) (f : MediaFormat)
  : bool :=
  existsb (MediaFormat_eqb f) formats.

(** Truthiness of an optional boolean field. *)
Definition flag (o : option bool) : bool :=
  match o with Some b => b | None => false end.

(** [getAvailableFormats], lines 75-87. *)
Definition getAvailableFormats (data : AnalyzeResponse) : list MediaFormat :=
  let formats := [] in
  let formats :=
    if flag (has_video_content data) then formats ++ [fmt_video]
    else formats in
  let formats :=
    if flag (has_audio_content data) then formats ++ [fmt_audio]
    else formats in
  let formats :=
    if flag (has_image_content data) then formats ++ [fmt_image]
    else formats in
  let formats :=
    if negb (formats_includes formats fmt_text) then formats ++ [fmt_text]
    else formats in
  let formats :=
    if negb (formats_includes formats fmt_exercises)
    then formats ++ [fmt_exercises]
    else formats in
  formats.

(** [data.primary_media_type as MediaFormat] *)
Definition as_MediaFormat (t : PrimaryMediaType) : MediaFormat :=
  match t with
  | pm_video => fmt_video
  | pm_audio => fmt_audio
  | pm_image => fmt_image
  | pm_text => fmt_text
  | pm_exercises => fmt_exercises
  | pm_mixed => fmt_mixed
  end.

Definition is_mixed (t : PrimaryMediaType) : bool :=
  match t with pm_mixed => true | _ => false end.

(** The format the effect of lines 90-102 selects. *)
Definition initialMediaFormat (data : AnalyzeResponse) : MediaFormat :=
  let by_content :=
    if flag (has_video_content data) then fmt_video
    else if flag (has_audio_content data) then fmt_audio
    else if flag (has_image_content data) then fmt_image
    else fmt_text in
  match primary_media_type data with
  | Some t => if negb (is_mixed t) then as_MediaFormat t else by_content
  | None => by_content
  end.

(** A media block of the response, with the URL it points to. *)
Inductive widget :=
  | video_player (src : jsstring)
  | audio_player (src : jsstring)
  | image_view (src : jsstring)
  | document_link (href : jsstring)
  | exercises_link (href : jsstring).

Section Render.

Variable env : option jsstring.

(** The five [render...Content] functions, lines 362-544: nothing for an
    empty path, otherwise one block on the normalized URL.  [None] stands
    for a thrown exception. *)
Definition render_block (make : jsstring -> widget) (filePath : jsstring)
  : option (list widget) :=
  if is_empty filePath then Some []
  else
    match validateMediaUrl env filePath with
    | Some url => Some [make url]
    | None => None
    end.

Definition renderVideoContent := render_block video_player.
Definition renderAudioContent := render_block audio_player.
Definition renderImageContent := render_block image_view.
Definition renderMarkdownContent := render_block document_link.
Definition renderExercisesContent := render_block exercises_link.

(** [renderContentByType], lines 342-360. *)
Definition renderContentByType (filePath : jsstring) : option (list widget) :=
  match getFileType filePath with
  | video => renderVideoContent filePath
  | audio => renderAudioContent filePath
  | image => renderImageContent filePath
  | exercises => renderExercisesContent filePath
  | markdown => renderMarkdownContent filePath
  | unknown => Some []
  end.

Definition type_is (data : AnalyzeResponse) (t : PrimaryMediaType) : bool :=
  match primary_media_type data with
  | Some t' => eqb (media_type_name t') (media_type_name t)
  | None => false
  end.

(** The [defaultMedia] object, lines 304-310. *)
Definition defaultMedia (data : AnalyzeResponse)
  : list (jsstring * option jsstring) :=
  [ (str "video",
     if type_is data pm_video then Some (str "videos/Dica do professor.mp4")
     else None);
    (str "audio",
     if type_is data pm_audio then Some (str "audio/Dica do professor.mp3")
     else None);
    (str "image",
     if type_is data pm_image then Some (str "images/Infografico-1.jpg")
     else None);
    (str "exercises",
     if type_is data pm_exercises then Some (str "text/Exercícios.txt")
     else None);
    (str "text",
     if type_is data pm_text then Some (str "text/Capítulo do Livro.txt")
     else None) ].

Fixpoint defaultMedia_get (key : jsstring)
  (o : list (jsstring * option jsstring)) : option jsstring :=
  match o with
  | [] => None
  | (k, v) :: o' => if eqb k key then v else defaultMedia_get key o'
  end.

(** The children of a fragment, in order. *)
Fixpoint fragment (children : list (option (list widget)))
  : option (list widget) :=
  match children with
  | [] => Some []
  | None :: _ => None
  | Some ws :: rest =>
      match fragment rest with
      | Some ws' => Some (ws ++ ws')
      | None => None
      end
  end.

(** [renderFileContent], lines 299-339. *)
Definition renderFileContent (data : AnalyzeResponse)
  : option (list widget) :=
  let filePath := extractFilePath data (response data) in
  if match primary_media_type data with
     | Some t => is_mixed t
     | None => true
     end
  then
    fragment
      [ renderVideoContent (str "videos/Dica do professor.mp4");
        renderAudioContent (str "audio/Dica do professor.mp3");
        renderImageContent (str "images/Infografico-1.jpg");
        renderExercisesContent (str "text/Exercícios.txt");
        match filePath with
        | Some (c :: p) => renderContentByType (c :: p)
        | _ => Some []
        end ]
  else
    match filePath with
    | Some (c :: p) => renderContentByType (c :: p)
    | _ =>
        match primary_media_type data with
        | Some t =>
            match defaultMedia_get (media_type_name t) (defaultMedia data) with
            | Some (c :: mediaPath) => renderContentByType (c :: mediaPath)
            | _ => Some []
            end
        | None => Some []
        end
    end.

End Render.

(** *** Feedback, lines 67-72 and 112-132 *)

(** The [feedbackStatus] prop. *)
Inductive feedback_prop := fp_undefined | fp_null | fp_pending | fp_submitted.

Inductive feedback := positive | negative.

(** The component's two feedback cells, the prop its parent passes, and
    what has left the component: the requests made to [sendFeedback] and
    the calls to [onFeedback], oldest first. *)
Record feedback_world := {
  internalFeedbackSubmitted : bool;
  isSubmittingFeedback : bool;
  feedbackStatus : feedback_prop;
  sent : list (jsstring * jsstring * jsstring);
  notified : list feedback
}.

Definition feedbackSubmitted (w : feedback_world) : bool :=
  match feedbackStatus w with fp_submitted => true | _ => false end
  || internalFeedbackSubmitted w.

Section Feedback.

Variable data : AnalyzeResponse.
(** What the parent's [onFeedback] does to the prop it passes. *)
Variable parent : feedback -> feedback_prop -> feedback_prop.

(** [handleFeedbackSubmit]; [accepted] tells whether [sendFeedback]
    resolves. *)
Definition handleFeedbackSubmit (w : feedback_world) (fb : feedback)
  (accepted : bool) : feedback_world :=
  if feedbackSubmitted w || isSubmittingFeedback w then w
  else
    let feedbackText :=
      match fb with positive => str "positivo" | negative => str "negativo" end in
    let request := (user_id data, or_empty (query_id data), feedbackText) in
    if accepted then
      {| internalFeedbackSubmitted :=
           match feedbackStatus w with
           | fp_undefined => true
           | _ => internalFeedbackSubmitted w
           end;
         isSubmittingFeedback := false;
         feedbackStatus := parent fb (feedbackStatus w);
         sent := sent w ++ [request];
         notified := notified w ++ [fb] |}
    else
      {| internalFeedbackSubmitted := internalFeedbackSubmitted w;
         isSubmittingFeedback := false;
         feedbackStatus := feedbackStatus w;
         sent := sent w ++ [request];
         notified := notified w |}.

Definition feedback_start (status : feedback_prop) : feedback_world :=
  {| internalFeedbackSubmitted := false;
     isSubmittingFeedback := false;
     feedbackStatus := status;
     sent := [];
     notified := [] |}.

(** A series of presses of the two buttons, each with the fate of its
    request. *)
Definition feedback_run (status : feedback_prop)
  (presses : list (feedback * bool)) : feedback_world :=
  fold_left (fun w '(fb, accepted) => handleFeedbackSubmit w fb accepted)
    presses (feedback_start status).

End Feedback.

End AdaptiveResponseView.

(** ** [ExerciseContent.tsx]: the rest of the component *)

Module ExerciseAnswers.
Import JS.

(** The message of line 68.  It is thrown inside the [try] of lines
    43-71, so the [catch] of line 73 takes it and the text parser
    runs. *)
Definition unrecognized_format_error : jsstring :=
  str "Formato de exercícios não reconhecido".

(** The [selectedAnswers] object, a map from exercise index to the
    chosen option, and the [showResults] flag. *)
Record answers := {
  selectedAnswers : list (nat * jsstring);
  showResults : bool
}.

Definition answers_init : answers :=
  {| selectedAnswers := []; showResults := false |}.

(** [{...prev, [exerciseIndex]: answer}] *)
Fixpoint assign (i : nat) (a : jsstring) (o : list (nat * jsstring))
  : list (nat * jsstring) :=
  match o with
  | [] => [(i, a)]
  | (k, v) :: o' => if Nat.eqb k i then (i, a) :: o' else (k, v) :: assign i a o'
  end.

(** [selectedAnswers[index]] *)
Fixpoint chosen (i : nat) (o : list (nat * jsstring)) : option jsstring :=
  match o with
  | [] => None
  | (k, v) :: o' => if Nat.eqb k i then Some v else chosen i o'
  end.

(** [handleAnswerSelect], [handleSubmit] and [handleReset], lines
    179-193. *)
Definition handleAnswerSelect (s : answers) (exerciseIndex : nat)
  (answer : jsstring) : answers :=
  {| selectedAnswers := assign exerciseIndex answer (selectedAnswers s);
     showResults := showResults s |}.

Definition handleSubmit (s : answers) : answers :=
  {| selectedAnswers := selectedAnswers s; showResults := true |}.

Definition handleReset (s : answers) : answers :=
  {| selectedAnswers := []; showResults := false |}.

(** What the user can do: pick an option (the radio inputs are disabled
    while the results are shown), press "Verificar respostas" (shown
    while the results are not, disabled while nothing is selected), and
    press "Tentar novamente" (shown with the results). *)
Inductive answer_event :=
  | Pick (exerciseIndex : nat) (opt : jsstring)
  | Verify
  | TryAgain.

Definition answer_step (s : answers) (ev : answer_event) : answers :=
  match ev with
  | Pick i a => if showResults s then s else handleAnswerSelect s i a
  | Verify =>
      if negb (showResults s)
         && negb (Nat.eqb (length (selectedAnswers s)) 0)
      then handleSubmit s else s
  | TryAgain => if showResults s then handleReset s else s
  end.

Definition answer_run (trace : list answer_event) : answers :=
  fold_left answer_step trace answers_init.

End ExerciseAnswers.

(** ** [MediaContentViewer.tsx] *)

Module MediaContentViewer.
Import JS MediaUtils AdaptiveResponseView.

(** The [defaultPaths] table of the effect. *)
Definition defaultPaths (format : MediaFormat) : jsstring :=
  match format with
  | fmt_video => str "videos/Dica do professor.mp4"
  | fmt_audio => str "audio/Dica do professor.mp3"
  | fmt_image => str "images/Infografico-1.jpg"
  | fmt_text => str "text/Capítulo do Livro.txt"
  | fmt_exercises => str "text/Exercícios.txt"
  | fmt_mixed => str "videos/Dica do professor.mp4"
  end.

(** What the component shows once its effect has run: the red box of the
    [catch] branch, the red box for a missing URL, or a media block. *)
Inductive viewer :=
  | load_error
  | not_loaded
  | media (w : widget).

(** The [switch] on the format. *)
Definition block_of (format : MediaFormat) (mediaUrl : jsstring) : widget :=
  match format with
  | fmt_video => video_player mediaUrl
  | fmt_audio => audio_player mediaUrl
  | fmt_image => image_view mediaUrl
  | fmt_text => document_link mediaUrl
  | fmt_exercises => exercises_link mediaUrl
  | fmt_mixed => video_player mediaUrl
  end.

(** [filePath || defaultPaths[format]] *)
Definition path_of (format : MediaFormat) (filePath : option jsstring)
  : jsstring :=
  if truthy (or_empty filePath) then or_empty filePath
  else defaultPaths format.

Definition MediaContentViewer (env : option jsstring) (format : MediaFormat)
  (filePath : option jsstring) : viewer :=
  match validateMediaUrl env (path_of format filePath) with
  | None => load_error
  | Some mediaUrl =>
      if negb (truthy mediaUrl) then not_loaded
      else media (block_of format mediaUrl)
  end.

End MediaContentViewer.

(** ** [AdaptiveLearningContent.tsx]: moving between the gaps *)

Module AdaptiveLearningContent.
Import JS.

Record nav := {
  currentGapIndex : nat;
  exerciseMode : bool
}.

Definition nav_init : nav := {| currentGapIndex := 0; exerciseMode := false |}.

Section Navigation.

Variable knowledgeGaps : list jsstring.

(** [navigateToNextGap], lines 108-113; [currentGapIndex <
    knowledgeGaps.length - 1] over the integers is [currentGapIndex + 1 <
    knowledgeGaps.length]. *)
Definition navigateToNextGap (s : nav) : nav :=
  if Nat.ltb (currentGapIndex s + 1) (length knowledgeGaps)
  then {| currentGapIndex := currentGapIndex s + 1; exerciseMode := false |}
  else s.

(** [navigateToPreviousGap], lines 115-120. *)
Definition navigateToPreviousGap (s : nav) : nav :=
  if Nat.ltb 0 (currentGapIndex s)
  then {| currentGapIndex := currentGapIndex s - 1; exerciseMode := false |}
  else s.

(** [toggleMode], lines 122-124. *)
Definition toggleMode (s : nav) : nav :=
  {| currentGapIndex := currentGapIndex s;
     exerciseMode := negb (exerciseMode s) |}.

(** [knowledgeGaps[currentGapIndex]]; [None] for [undefined]. *)
Definition currentGap (s : nav) : option jsstring :=
  nth_error knowledgeGaps (currentGapIndex s).

Inductive nav_event := NextGap | PreviousGap | ToggleMode.

Definition nav_step (s : nav) (ev : nav_event) : nav :=
  match ev with
  | NextGap => navigateToNextGap s
  | PreviousGap => navigateToPreviousGap s
  | ToggleMode => toggleMode s
  end.

Definition nav_run (trace : list nav_event) : nav :=
  fold_left nav_step trace nav_init.

End Navigation.

End AdaptiveLearningContent.

(** ** [app/learning/page.tsx] *)

Module LearningPage.
Import JS InteractivePrompt.

(** The page: its two [useState] cells, and the [InteractivePrompt] it
    mounts while the assessment is not complete. *)
Record page := {
  assessmentComplete : bool;
  assessmentResult : option AssessmentResult;
  prompt : world
}.

(** [handleAssessmentComplete], lines 19-22. *)
Definition handleAssessmentComplete (pg : page) (result : AssessmentResult)
  : page :=
  {| assessmentComplete := true;
     assessmentResult := Some result;
     prompt := prompt pg |}.

(** [<InteractivePrompt onComplete={handleAssessmentComplete} />] *)
Definition prompt_props : props :=
  {| initialUserId := None; onComplete := true |}.

Section Page.

Variable analyzeQuery : AnalyzeRequest -> option jsstring.

Definition page_mount : page :=
  {| assessmentComplete := false;
     assessmentResult := None;
     prompt := mount prompt_props |}.

(** An event on the prompt.  Once [assessmentComplete] is set the prompt
    is no longer rendered, so there is nothing to act on; until then the
    calls the prompt makes to [onComplete] during the step reach
    [handleAssessmentComplete]. *)
Definition page_step (pg : page) (ev : event) : page :=
  if assessmentComplete pg then pg
  else
    let w' := step prompt_props analyzeQuery (prompt pg) ev in
    fold_left handleAssessmentComplete
      (skipn (length (calls (prompt pg))) (calls w'))
      {| assessmentComplete := assessmentComplete pg;
         assessmentResult := assessmentResult pg;
         prompt := w' |}.

Definition page_run (trace : list event) : page :=
  fold_left page_step trace page_mount.

(** The props of [AdaptiveLearningContent], when it is rendered. *)
Definition learning_plan (pg : page) : option AssessmentResult :=
  if assessmentComplete pg then assessmentResult pg else None.

End Page.

End LearningPage.

(* ================================================================== *)
(** * Part II: properties                                              *)
(* ================================================================== *)

Module JSFacts.
Import JS.

Lemma startsWith_app (p s : jsstring) : startsWith (p ++ s) p = true.
Proof.
  induction p as [|a p IH]; simpl; [reflexivity|].
  now rewrite N.eqb_refl, IH.
Qed.

Lemma startsWith_app_l (s p t : jsstring) :
  startsWith s p = true -> startsWith (s ++ t) p = true.
Proof.
  revert s; induction p as [|a p IH]; intros s H; simpl in *; [reflexivity|].
  destruct s as [|b s]; [discriminate|]; simpl.
  apply andb_true_iff in H as [H1 H2].
  now rewrite H1, (IH _ H2).
Qed.

Lemma startsWith_spec (s p : jsstring) :
  startsWith s p = true <-> exists t, s = p ++ t.
Proof.
  split.
  - revert s; induction p as [|a p IH]; intros s H; simpl in *.
    + now exists s.
    + destruct s as [|b s]; [discriminate|].
      apply andb_true_iff in H as [H1 H2].
      apply N.eqb_eq in H1; subst b.
      destruct (IH _ H2) as [t ->]. now exists t.
  - intros [t ->]. apply startsWith_app.
Qed.

Lemma includes_app (a p b : jsstring) : includes (a ++ p ++ b) p = true.
Proof.
  induction a as [|c a IH]; simpl.
  - pose proof (startsWith_app p b) as H.
    destruct (p ++ b); cbn [includes]; [exact H | now rewrite H].
  - rewrite IH. apply orb_true_r.
Qed.

Lemma split_from_nonempty (sep s : jsstring) (skip : nat) (cur : jsstring) :
  (1 <= length (split_from sep s skip cur))%nat.
Proof.
  revert skip cur; induction s as [|c s IH]; intros skip cur; simpl.
  - lia.
  - destruct skip; [|apply IH].
    destruct (startsWith (c :: s) sep); [simpl; lia | apply IH].
Qed.

Lemma split_from_includes (sep s cur : jsstring) :
  sep <> [] -> includes s sep = true ->
  (2 <= length (split_from sep s 0 cur))%nat.
Proof.
  intros Hsep; revert cur; induction s as [|c s IH]; intros cur H.
  - destruct sep; [congruence | discriminate].
  - cbn [split_from]. cbn [includes] in H.
    destruct (startsWith (c :: s) sep) eqn:E.
    + cbn [length]. pose proof (split_from_nonempty sep s (length sep - 1) []).
      lia.
    + apply IH. exact H.
Qed.

Lemma toLowerCase_app (a b : jsstring) :
  toLowerCase (a ++ b) = toLowerCase a ++ toLowerCase b.
Proof. apply flat_map_app. Qed.

End JSFacts.

(** ** Properties of [mediaUtils.ts] *)

Module MediaUtilsSpec.
Import JS JSFacts MediaUtils.

Lemma startsWith_incl (s p : jsstring) :
  startsWith s p = true -> incl p s.
Proof.
  intros H; apply startsWith_spec in H as [t ->].
  intros x Hx; apply in_or_app; now left.
Qed.

Lemma includes_incl (s p : jsstring) :
  includes s p = true -> incl p s.
Proof.
  induction s as [|c s IH]; cbn [includes]; intros H.
  - now apply startsWith_incl.
  - apply orb_true_iff in H as [H|H].
    + now apply startsWith_incl.
    + intros x Hx; right; now apply IH.
Qed.

Lemma after_root_marker_defined (url : jsstring) :
  exists c, after_root_marker url = Some c.
Proof.
  unfold after_root_marker.
  destruct (includes url root_marker) eqn:E; [|now exists url].
  assert (Hlen : (2 <= length (split url root_marker))%nat)
    by (apply split_from_includes; [discriminate | exact E]).
  destruct (split url root_marker) as [|a [|b l]]; cbn in Hlen; try lia.
  now exists b.
Qed.

Lemma cleanPath_of_defined (url : jsstring) :
  exists c, cleanPath_of url = Some c.
Proof.
  unfold cleanPath_of.
  destruct (after_root_marker_defined url) as [c ->]; eauto.
Qed.

Lemma validateMediaUrl_defined (env : option jsstring) (url : jsstring) :
  exists r, validateMediaUrl env url = Some r.
Proof.
  unfold validateMediaUrl.
  destruct (is_empty url); [eauto|].
  destruct (is_absolute_url url); [eauto|].
  destruct (startsWith url root_marker); [eauto|].
  destruct (cleanPath_of_defined url) as [c ->]; eauto.
Qed.

Lemma apiUrl_nonempty (env : option jsstring) : is_empty (apiUrl env) = false.
Proof. destruct env as [[|c u]|]; reflexivity. Qed.

Lemma is_absolute_url_app (a b : jsstring) :
  is_absolute_url a = true -> is_absolute_url (a ++ b) = true.
Proof.
  unfold is_absolute_url; intros H.
  apply orb_true_iff in H as [H|H];
    rewrite (startsWith_app_l _ _ b H); [reflexivity | apply orb_true_r].
Qed.

Lemma is_empty_app_l (a b : jsstring) :
  is_empty a = false -> is_empty (a ++ b) = false.
Proof. destruct a; [discriminate | reflexivity]. Qed.

(** An absolute URL is a fixed point of the normalizer. *)
Lemma validateMediaUrl_absolute (env : option jsstring) (url : jsstring) :
  is_absolute_url url = true -> validateMediaUrl env url = Some url.
Proof.
  intros H; unfold validateMediaUrl; rewrite H.
  destruct url; [discriminate H | reflexivity].
Qed.

(** C9: [getFileType] and [validateMediaUrl] never throw: the
    normalizer returns a string on every input (the only operation in it
    that could fail, the index [1] into the split array, is always in
    range), the classifier is a total function, and on the empty string
    they return [''] and ['unknown']. *)
Theorem mediaUtils_total :
  (forall env url, exists r, validateMediaUrl env url = Some r)
  /\ (forall filePath, exists t, getFileType filePath = t)
  /\ (forall env, validateMediaUrl env [] = Some [])
  /\ getFileType [] = unknown.
Proof.
  repeat split.
  - apply validateMediaUrl_defined.
  - intros filePath; now exists (getFileType filePath).
Qed.

(** C10: the normalizer is idempotent when the API base URL begins with
    [http://] or [https://]: it returns a string, and applied to that
    string it returns it again. *)
Theorem validateMediaUrl_idempotent (env : option jsstring) (p : jsstring) :
  is_absolute_url (apiUrl env) = true ->
  exists r, validateMediaUrl env p = Some r /\ validateMediaUrl env r = Some r.
Proof.
  intros Hapi.
  unfold validateMediaUrl at 1.
  destruct (is_empty p) eqn:Ee; [now exists []|].
  destruct (is_absolute_url p) eqn:Ea.
  { exists p; split; [reflexivity | now apply validateMediaUrl_absolute]. }
  cbv zeta.
  destruct (startsWith p root_marker).
  { eexists; split; [reflexivity|].
    apply validateMediaUrl_absolute, is_absolute_url_app, Hapi. }
  destruct (cleanPath_of_defined p) as [c ->].
  eexists; split; [reflexivity|].
  apply validateMediaUrl_absolute, is_absolute_url_app, Hapi.
Qed.

Lemma validateMediaUrl_idempotent_witness :
  exists r, validateMediaUrl None (str "Aula 1.mp3") = Some r
            /\ validateMediaUrl None r = Some r.
Proof. apply (validateMediaUrl_idempotent None (str "Aula 1.mp3")); reflexivity. Defined.

(** A bare file name has no path separator in it. *)
Lemma bare_not_startsWith (f p : jsstring) :
  ~ In 47 f -> In 47 p -> startsWith f p = false.
Proof.
  intros Hf Hp. destruct (startsWith f p) eqn:E; [|reflexivity].
  exfalso; apply Hf. now apply (startsWith_incl _ _ E).
Qed.

Lemma bare_not_includes (f p : jsstring) :
  ~ In 47 f -> In 47 p -> includes f p = false.
Proof.
  intros Hf Hp. destruct (includes f p) eqn:E; [|reflexivity].
  exfalso; apply Hf. now apply (includes_incl _ _ E).
Qed.

Lemma bare_strip_leading_slashes (f : jsstring) :
  ~ In 47 f -> strip_leading_slashes f = f.
Proof.
  destruct f as [|c f]; [reflexivity|]; intros H; cbn.
  destruct (N.eqb_spec c 47); [|reflexivity].
  exfalso; apply H; now left.
Qed.

Lemma bare_cleanPath_of (f : jsstring) :
  ~ In 47 f -> cleanPath_of f = Some f.
Proof.
  intros H. unfold cleanPath_of, after_root_marker.
  rewrite bare_not_includes by (assumption || (cbn; tauto)).
  now rewrite bare_strip_leading_slashes.
Qed.

Lemma bare_hasMediaDir (f : jsstring) :
  ~ In 47 f -> hasMediaDir f = false.
Proof.
  intros H. unfold hasMediaDir, mediaDirs. cbn [existsb].
  rewrite !bare_not_startsWith by (assumption || (cbn; tauto)).
  reflexivity.
Qed.

Lemma extension_nil : extension [] = [].
Proof. reflexivity. Qed.

(** C7: a bare file name (no [/] in it) whose lower-case extension is a
    video extension is placed under [videos/], and the classifier reports
    [video] for the URL the normalizer returned. *)
Theorem video_filename_roundtrip (env : option jsstring) (f : jsstring) :
  ~ In 47 f ->
  arr_includes video_exts (extension f) = true ->
  validateMediaUrl env f
    = Some (apiUrl env ++ str "/processed_data/" ++ str "videos/" ++ f)
  /\ getFileType (apiUrl env ++ str "/processed_data/" ++ str "videos/" ++ f)
     = video.
Proof.
  intros Hbare Hext. split.
  - unfold validateMediaUrl.
    destruct f as [|c f]; [discriminate Hext|].
    cbn [is_empty]. unfold is_absolute_url.
    rewrite !bare_not_startsWith by (assumption || (cbn; tauto)).
    cbn [orb]. rewrite bare_cleanPath_of by assumption. cbv zeta.
    rewrite bare_hasMediaDir by assumption. cbn [negb].
    unfold infer_subdir. rewrite Hext. reflexivity.
  - unfold getFileType.
    rewrite is_empty_app_l by apply apiUrl_nonempty.
    cbv zeta.
    replace (str "/processed_data/" ++ str "videos/" ++ f)
      with (str "/processed_data" ++ str "/videos/" ++ f) by reflexivity.
    rewrite app_assoc, toLowerCase_app, (toLowerCase_app (str "/videos/")).
    change (toLowerCase (str "/videos/")) with (str "/videos/").
    rewrite includes_app, orb_true_r. reflexivity.
Qed.

Lemma video_filename_roundtrip_witness :
  validateMediaUrl None (str "Dica do professor.MP4")
    = Some (apiUrl None ++ str "/processed_data/" ++ str "videos/"
              ++ str "Dica do professor.MP4")
  /\ getFileType
       (apiUrl None ++ str "/processed_data/" ++ str "videos/"
          ++ str "Dica do professor.MP4")
     = video.
Proof.
  apply (video_filename_roundtrip None (str "Dica do professor.MP4")).
  - vm_compute. intros H. repeat (destruct H as [H|H]; [discriminate H|]).
    exact H.
  - vm_compute. reflexivity.
Defined.

(** C5, as stated, fails: ["notes.json"] meets every premise of the claim
    (non-empty, not absolute, no media-directory prefix, extension outside
    the video, audio and image sets) and is not placed under [text/]. *)
Lemma unrecognized_extension_not_text :
  let p := str "notes.json" in
  is_empty p = false
  /\ is_absolute_url p = false
  /\ cleanPath_of p = Some p
  /\ hasMediaDir p = false
  /\ arr_includes (video_exts ++ audio_exts ++ image_exts) (extension p) = false
  /\ validateMediaUrl None p
     = Some (str "http://localhost:8000/processed_data/notes.json")
  /\ validateMediaUrl None p
     <> Some (str "http://localhost:8000/processed_data/text/notes.json").
Proof. cbv zeta. repeat split; try reflexivity. discriminate. Qed.

(** C5, amended: for a non-empty path that is not an absolute URL and does
    not begin with the root marker, whose remainder [c] after root-marker
    and slash stripping has no media-directory prefix and whose extension
    is outside the video, audio and image sets: the file is placed under
    [text/] when the extension is [txt], [md] or [pdf], and directly under
    the root marker, with no subdirectory added, for any other
    extension. *)
Theorem other_extension_placement (env : option jsstring) (p c : jsstring) :
  is_empty p = false ->
  is_absolute_url p = false ->
  startsWith p root_marker = false ->
  cleanPath_of p = Some c ->
  hasMediaDir c = false ->
  arr_includes (video_exts ++ audio_exts ++ image_exts) (extension c) = false ->
  validateMediaUrl env p
  = Some (apiUrl env ++ str "/processed_data/"
            ++ (if arr_includes text_exts (extension c)
                then str "text/" ++ c else c)).
Proof.
  intros He Ha Hr Hc Hd Hx.
  unfold validateMediaUrl. rewrite He, Ha, Hr, Hc. cbv zeta.
  rewrite Hd. cbn [negb]. unfold infer_subdir.
  unfold arr_includes in *. rewrite !existsb_app in Hx.
  apply orb_false_iff in Hx as [Hv Hx].
  apply orb_false_iff in Hx as [Hau Him].
  rewrite Hv, Hau, Him.
  destruct (existsb (eqb (extension c)) text_exts); [|reflexivity].
  now destruct (_ || _).
Qed.

Lemma other_extension_placement_witness :
  validateMediaUrl None (str "/home/u/processed_data//Resumo.PDF")
  = Some (str "http://localhost:8000/processed_data/text/Resumo.PDF").
Proof.
  apply (other_extension_placement None
           (str "/home/u/processed_data//Resumo.PDF") (str "Resumo.PDF"));
    reflexivity.
Defined.

End MediaUtilsSpec.

(** ** Properties of the matcher *)

Module RegexFacts.
Import JS JSFacts Regex.

Lemma startsWith_app_long (s t p : jsstring) :
  (length p <= length s)%nat -> startsWith (s ++ t) p = startsWith s p.
Proof.
  revert s; induction p as [|a p IH]; intros s Hlen; [reflexivity|].
  destruct s as [|b s]; cbn in Hlen; [lia|].
  cbn. rewrite IH by lia. reflexivity.
Qed.

Lemma indexOf_before (a b p : jsstring) (n : nat) :
  indexOf (a ++ b) p = Some n -> (length a < n)%nat -> startsWith b p = false.
Proof.
  revert n; induction a as [|x a IH]; intros n H Hlt.
  - cbn [app] in H. destruct b as [|y b]; cbn [indexOf] in H;
      destruct (startsWith _ p); try reflexivity;
      injection H as <-; cbn in Hlt; lia.
  - cbn [app indexOf] in H.
    destruct (startsWith (x :: a ++ b) p); [injection H as <-; lia|].
    destruct (indexOf (a ++ b) p) as [n'|] eqn:E; [|discriminate].
    injection H as <-. apply (IH n' eq_refl). cbn in Hlt; lia.
Qed.

(** A literal matches exactly when it is a prefix of the input. *)
Lemma m_lit (p : jsstring) total s c k :
  m (lit p) total s c k
  = if startsWith s p then k (skipn (length p) s) c else None.
Proof.
  revert s; induction p as [|a p IH]; intros s; [reflexivity|].
  cbn [lit fold_right m]. fold (lit p).
  destruct s as [|x s]; [reflexivity|].
  cbn [startsWith length skipn]. unfold cu_is. rewrite (N.eqb_sym a x).
  destruct (x =? a); [apply IH | reflexivity].
Qed.

(** [rep] depends on its continuation pointwise only. *)
Lemma rep_ext g (p : N -> bool) min max (s : jsstring) k1 k2 :
  (forall s', k1 s' = k2 s') -> rep g p min max s k1 = rep g p min max s k2.
Proof.
  intros Hk; revert min max; induction s as [|x s IH]; intros min max.
  - cbn. rewrite Hk. reflexivity.
  - cbn. rewrite Hk, IH. reflexivity.
Qed.

Lemma exec_from_hit (r : regex) total (s : jsstring) c :
  m r total s [] (fun _ c' => Some c') = Some c ->
  exec_from r total s = Some c.
Proof. intros H. destruct s; cbn [exec_from]; now rewrite H. Qed.

Lemma exec_from_miss (r : regex) total x (s : jsstring) :
  m r total (x :: s) [] (fun _ c' => Some c') = None ->
  exec_from r total (x :: s) = exec_from r total s.
Proof. intros H. cbn [exec_from]. now rewrite H. Qed.

Lemma rep_lazy_unfold (p : N -> bool) (s : jsstring) k :
  rep false p 0 None s k
  = match k s with
    | Some r => Some r
    | None =>
        match s with
        | x :: s' => if p x then rep false p 0 None s' k else None
        | [] => None
        end
    end.
Proof.
  destruct s as [|x s]; cbn; [reflexivity|].
  destruct (k (x :: s)); [reflexivity|]. now rewrite andb_true_r.
Qed.

(** A lazy star over [x] stops at the first place where the
    continuation succeeds. *)
Lemma rep_lazy_first (p : N -> bool) (x rest : jsstring) k :
  forallb p x = true ->
  (forall a b, x = a ++ b -> b <> [] -> k (b ++ rest) = None) ->
  rep false p 0 None (x ++ rest) k = rep false p 0 None rest k.
Proof.
  induction x as [|y x IH]; intros Hp Hk; [reflexivity|].
  cbn [forallb] in Hp. apply andb_true_iff in Hp as [Hy Hx].
  rewrite rep_lazy_unfold.
  rewrite (Hk [] (y :: x) eq_refl) by discriminate.
  cbn [app]. rewrite Hy.
  apply IH; [exact Hx|].
  intros a b -> Hb. apply (Hk (y :: a) b eq_refl Hb).
Qed.

Lemma rep_lazy_stop (p : N -> bool) (s : jsstring) k r :
  k s = Some r -> rep false p 0 None s k = Some r.
Proof. intros H. rewrite rep_lazy_unfold. now rewrite H. Qed.

End RegexFacts.

(** ** Properties of [extractFilePath] *)

Module AdaptiveResponseSpec.
Import JS JSFacts Regex RegexFacts AdaptiveResponse.

(** What the marker pattern does at one start position. *)
Lemma m_filePath_re total (s : jsstring) :
  m filePath_re total s [] (fun _ c => Some c)
  = if startsWith s marker_open
    then let s1 := skipn (length marker_open) s in
         rep false dot 0 None s1
           (fun s' => if startsWith s' marker_close
                      then Some [(1%nat, firstn (length s1 - length s') s1)]
                      else None)
    else None.
Proof.
  unfold filePath_re, seq. cbn [fold_right].
  cbn [m]. rewrite m_lit.
  destruct (startsWith s marker_open); [|reflexivity].
  cbv zeta. unfold lazy_star. cbn [m].
  apply rep_ext. intros s'. now rewrite m_lit.
Qed.

Lemma exec_from_filePath_skip total (pre rest : jsstring) :
  indexOf (pre ++ rest) marker_open = Some (length pre) ->
  exec_from filePath_re total (pre ++ rest) = exec_from filePath_re total rest.
Proof.
  induction pre as [|x pre IH]; intros H; [reflexivity|].
  cbn [app] in *. cbn [indexOf] in H.
  destruct (startsWith (x :: pre ++ rest) marker_open) eqn:E; [discriminate|].
  destruct (indexOf (pre ++ rest) marker_open) as [n|] eqn:En; [|discriminate].
  injection H as Hn. cbn [exec_from]. rewrite m_filePath_re, E.
  apply IH. now rewrite Hn.
Qed.

Lemma match1_filePath_re (pre x post : jsstring) :
  x <> [] ->
  forallb dot x = true ->
  indexOf (x ++ marker_close) marker_close = Some (length x) ->
  indexOf (pre ++ marker_open ++ x ++ marker_close ++ post) marker_open
    = Some (length pre) ->
  match1 filePath_re (pre ++ marker_open ++ x ++ marker_close ++ post)
    = Some x.
Proof.
  intros Hne Hdot Hclose Hopen.
  unfold match1, exec.
  rewrite exec_from_filePath_skip by exact Hopen.
  set (total := length _).
  assert (Hm : m filePath_re total (marker_open ++ x ++ marker_close ++ post)
                 [] (fun _ c => Some c) = Some [(1%nat, x)]).
  { rewrite m_filePath_re, startsWith_app. cbv zeta.
    replace (skipn (length marker_open)
               (marker_open ++ x ++ marker_close ++ post))
      with (x ++ marker_close ++ post) by reflexivity.
    rewrite rep_lazy_first.
    - apply rep_lazy_stop. rewrite startsWith_app. do 3 f_equal.
      rewrite !length_app.
      replace (length x + (length marker_close + length post)
               - (length marker_close + length post))%nat
        with (length x + 0)%nat by lia.
      rewrite firstn_app_2. cbn. apply app_nil_r.
    - exact Hdot.
    - intros a b -> Hb.
      rewrite app_assoc, startsWith_app_long.
      + rewrite (indexOf_before a (b ++ marker_close) marker_close (length (a ++ b)));
          [reflexivity | now rewrite app_assoc |].
        rewrite length_app. destruct b; [congruence | cbn; lia].
      + rewrite length_app; lia. }
  rewrite (exec_from_hit _ _ _ _ Hm). cbn [capture Nat.eqb].
  destruct x; [congruence | reflexivity].
Qed.

(** C1, as stated, fails on two kinds of text that contain a marker
    [<!-- file_path: X -->]: with an empty [X] the labelled line below the
    marker is returned, and with two markers the first one is returned,
    not the second. *)
Lemma marker_not_always_returned :
  (let x := [] in
   let text := [] ++ marker_open ++ x ++ marker_close
               ++ [10] ++ str "Arquivo: audio/Aula.mp3" in
   extractFilePath (text_only_response text) text = Some (str "audio/Aula.mp3")
   /\ extractFilePath (text_only_response text) text <> Some x)
  /\
  (let x := str "videos/b.mp4" in
   let text := str "<!-- file_path: videos/a.mp4 --> "
               ++ marker_open ++ x ++ marker_close ++ [] in
   extractFilePath (text_only_response text) text = Some (str "videos/a.mp4")
   /\ extractFilePath (text_only_response text) text <> Some x).
Proof.
  cbv zeta. split; (split; [vm_compute; reflexivity | vm_compute; discriminate]).
Qed.

(** C1, amended: when the first [<!-- file_path: ] of the text is followed
    by a non-empty [X] that has no line terminator and no [ -->] in it,
    and then by [ -->], the extractor returns [X], whatever else the text
    holds (labelled lines, media patterns) and whatever the other fields
    of the response are. *)
Theorem extractFilePath_marker_first
  (data : AnalyzeResponse) (pre x post : jsstring) :
  is_empty x = false ->
  forallb dot x = true ->
  indexOf (x ++ marker_close) marker_close = Some (length x) ->
  indexOf (pre ++ marker_open ++ x ++ marker_close ++ post) marker_open
    = Some (length pre) ->
  extractFilePath data (pre ++ marker_open ++ x ++ marker_close ++ post)
    = Some x.
Proof.
  intros Hne Hdot Hclose Hopen. unfold extractFilePath.
  rewrite match1_filePath_re; try assumption; [reflexivity|].
  intros ->; discriminate Hne.
Qed.

Lemma extractFilePath_marker_first_witness :
  extractFilePath
    (typed_response [] pm_audio)
    ((str "Arquivo: audio/Aula.mp3" ++ [10])
       ++ marker_open ++ str "videos/x.mp4" ++ marker_close
       ++ [10] ++ str "Imagem: images/y.png")
  = Some (str "videos/x.mp4").
Proof.
  apply (extractFilePath_marker_first (typed_response [] pm_audio)
           (str "Arquivo: audio/Aula.mp3" ++ [10]) (str "videos/x.mp4")
           ([10] ++ str "Imagem: images/y.png"));
    vm_compute; reflexivity.
Defined.

(** The per-kind default sample files of [extractFilePath]. *)
Lemma default_file_of (t : PrimaryMediaType) :
  lookup (toLowerCase (media_type_name t)) defaultFiles
  = match t with
    | pm_video => Some (str "videos/Dica do professor.mp4")
    | pm_audio => Some (str "audio/Dica do professor.mp3")
    | pm_image => Some (str "images/Infografico-1.jpg")
    | pm_text => Some (str "text/Apresentação.txt")
    | pm_exercises => Some (str "text/Exercícios.txt")
    | pm_mixed => None
    end.
Proof. destruct t; vm_compute; reflexivity. Qed.

(** C3, as stated, fails for the declared type ['mixed']: nothing in the
    text, no [file_path], and the extractor returns [null], not a default
    sample file. *)
Lemma mixed_has_no_default :
  let text := str "Resposta sem arquivo" in
  let data := typed_response text pm_mixed in
  match1 filePath_re text = None
  /\ match1 fileLine_re text = None
  /\ first_match patterns text = None
  /\ file_path data = None
  /\ primary_media_type data = Some pm_mixed
  /\ extractFilePath data text = None.
Proof. vm_compute. repeat split. Qed.

(** C3, amended: when the text matches no comment marker, no labelled
    line and no media pattern, and the [file_path] field is absent (or
    empty), the extractor returns the default sample file of the declared
    primary media type when that type is [video], [audio], [image],
    [text] or [exercises], and [null] when the declared type is [mixed]
    or when none is declared. *)
Theorem extractFilePath_default (data : AnalyzeResponse) (text : jsstring) :
  match1 filePath_re text = None ->
  match1 fileLine_re text = None ->
  first_match patterns text = None ->
  or_empty (file_path data) = [] ->
  extractFilePath data text
  = match primary_media_type data with
    | Some pm_video => Some (str "videos/Dica do professor.mp4")
    | Some pm_audio => Some (str "audio/Dica do professor.mp3")
    | Some pm_image => Some (str "images/Infografico-1.jpg")
    | Some pm_text => Some (str "text/Apresentação.txt")
    | Some pm_exercises => Some (str "text/Exercícios.txt")
    | Some pm_mixed => None
    | None => None
    end.
Proof.
  intros H1 H2 H3 H4. unfold extractFilePath. rewrite H1, H2, H3.
  destruct (file_path data) as [[|c v]|]; try discriminate H4;
    (destruct (primary_media_type data) as [t|]; [|reflexivity];
     cbv zeta; rewrite default_file_of; destruct t;
     vm_compute; reflexivity).
Qed.

Lemma extractFilePath_default_witness :
  extractFilePath (typed_response (str "Resposta sem arquivo") pm_exercises)
    (str "Resposta sem arquivo")
  = Some (str "text/Exercícios.txt").
Proof.
  apply (extractFilePath_default
           (typed_response (str "Resposta sem arquivo") pm_exercises)
           (str "Resposta sem arquivo"));
    vm_compute; reflexivity.
Defined.

End AdaptiveResponseSpec.

(** ** Properties of the exercise parser *)

Module ExerciseContentSpec.
Import JS JSFacts Regex ExerciseContent.

Lemma startsWith_refl (s : jsstring) : startsWith s s = true.
Proof. rewrite <- (app_nil_r s) at 1. apply startsWith_app. Qed.

Lemma startsWith_nil_l (p : jsstring) : startsWith [] p = true -> p = [].
Proof. destruct p; [reflexivity | discriminate]. Qed.

Lemma in_order_snoc_keep qs es q e :
  in_order qs es -> startsWith (question e) q = true ->
  in_order (qs ++ [q]) (es ++ [e]).
Proof.
  intros H Hq; induction H; cbn.
  - apply in_order_keep; [exact Hq | constructor].
  - apply in_order_keep; assumption.
  - apply in_order_drop; assumption.
Qed.

Lemma in_order_snoc_drop qs es :
  in_order qs es -> in_order (qs ++ [[]]) es.
Proof.
  intros H; induction H; cbn.
  - apply in_order_drop; constructor.
  - apply in_order_keep; assumption.
  - apply in_order_drop; assumption.
Qed.

(** The invariant of the loop: [qs] are the question texts of the lines
    read so far. *)
Definition parser_inv (qs : list jsstring) (st : parser) : Prop :=
  match currentExercise st with
  | None => qs = [] /\ exercises st = []
  | Some e =>
      exists qs' q, qs = qs' ++ [q]
                    /\ in_order qs' (exercises st)
                    /\ startsWith (question e) q = true
  end.

Lemma save_current_in_order qs st :
  parser_inv qs st -> in_order qs (exercises (save_current st)).
Proof.
  unfold parser_inv, save_current.
  destruct (currentExercise st) as [e|].
  - intros (qs' & q & -> & Hin & Hq).
    destruct (question e) as [|c v] eqn:Eq; cbn [truthy is_empty negb].
    + apply startsWith_nil_l in Hq; subst q. now apply in_order_snoc_drop.
    + destruct (collectingOptions st); cbn [exercises];
        apply in_order_snoc_keep; try assumption; cbn; now rewrite Eq.
  - intros [-> ->]. constructor.
Qed.

Lemma parse_line_inv qs st raw :
  parser_inv qs st ->
  parser_inv (qs ++ match question_text raw with Some q => [q] | None => [] end)
    (parse_line st raw).
Proof.
  intros Hinv. unfold parse_line, question_text. cbv zeta.
  destruct (is_empty (trim raw)); [now rewrite app_nil_r|].
  destruct (exec question_re (trim raw)) as [qm|].
  - unfold parser_inv; cbn [currentExercise exercises question].
    exists qs, (trim (group 2 qm)). repeat split.
    + now apply save_current_in_order.
    + apply startsWith_refl.
  - rewrite app_nil_r. unfold parser_inv in *.
    destruct (currentExercise st) as [e|] eqn:Ec; [|now rewrite Ec].
    destruct Hinv as (qs' & q & -> & Hin & Hq).
    destruct (exec option_re (trim raw));
      [cbn; exists qs', q; auto|].
    destruct (exec answer_re (trim raw));
      [cbn; exists qs', q; auto|].
    destruct (exec explanation_re (trim raw));
      [cbn; exists qs', q; auto|].
    destruct (collectingOptions st); cbn [negb].
    + rewrite Ec. exists qs', q; auto.
    + cbn. exists qs', q; repeat split; auto.
      now apply startsWith_app_l.
Qed.

Lemma fold_parse_line_inv lines qs st :
  parser_inv qs st ->
  parser_inv (qs ++ question_texts lines) (fold_left parse_line lines st).
Proof.
  revert qs st; induction lines as [|l ls IH]; intros qs st H; cbn.
  - now rewrite app_nil_r.
  - apply (parse_line_inv _ _ l) in H. apply IH in H.
    destruct (question_text l); cbn in H |- *;
      [now rewrite <- app_assoc in H | now rewrite app_nil_r in H].
Qed.

Lemma parse_lines_in_order (lines : list jsstring) :
  in_order (question_texts lines) (parse_lines lines).
Proof.
  pose proof (fold_parse_line_inv lines [] parser_init) as H.
  cbn [app] in H. specialize (H (conj eq_refl eq_refl)).
  unfold parse_lines. cbv zeta. unfold parser_inv in H.
  destruct (currentExercise (fold_left parse_line lines parser_init)) as [e|].
  - destruct H as (qs' & q & -> & Hin & Hq).
    destruct (question e) as [|c v] eqn:Eq; cbn [truthy is_empty negb].
    + apply startsWith_nil_l in Hq; subst q. now apply in_order_snoc_drop.
    + apply in_order_snoc_keep; [assumption|].
      destruct (collectingOptions _); cbn; now rewrite Eq.
  - destruct H as [-> ->]. constructor.
Qed.

(** C8: on the sample text the parser returns the one exercise the
    specification gives, and on every text the exercises returned follow
    the numbered question lines in source order: each exercise begins
    with the question text of its line, and no line is skipped unless its
    question text is empty. *)
Theorem parseTextExercises_sample_and_order :
  parseTextExercises
    (str "1. What is X?" ++ [10] ++ str "a) foo" ++ [10] ++ str "b) bar"
       ++ [10] ++ str "Resposta: a")
  = [ {| question := str "What is X?";
         options := Some [str "foo"; str "bar"];
         answer := Some (str "a");
         explanation := None |} ]
  /\ forall text : jsstring,
       in_order (question_texts (split text [10])) (parseTextExercises text).
Proof.
  split; [vm_compute; reflexivity|].
  intros text. apply parse_lines_in_order.
Qed.

Lemma no_exercises_error_distinct (status : N) :
  no_exercises_error <> http_error status.
Proof. unfold no_exercises_error, http_error. cbn. discriminate. Qed.

(** C4, as stated, fails when the JSON value holds an empty array.  On
    the content [[]], [JSON.parse] gives the empty array: neither
    strategy yields an exercise, yet the operation does not fail, the
    empty list is shown with no error.  On an object whose [exercises]
    field is the empty array and whose second line is [1.5}], the JSON
    strategy yields no exercise and the text parser would yield one, yet
    there is no fallback: nothing is shown. *)
Lemma empty_array_is_not_an_error :
  (let content := str "[]" in
   let fetch := fun _ : jsstring => Response true 200 content in
   let JSON_parse := fun _ : jsstring => Some (JArr []) in
   json_exercises (JSON_parse content) = Some []
   /\ parseTextExercises content = []
   /\ text_fallback content = failed no_exercises_error
   /\ fetchExercises None fetch JSON_parse (str "text/exercicios.json")
      = Some (loaded [])
   /\ fetchExercises None fetch JSON_parse (str "text/exercicios.json")
      <> Some (text_fallback content))
  /\
  (let content := str "{" ++ [34] ++ str "exercises" ++ [34] ++ str ": [], "
                    ++ [34] ++ str "nota" ++ [34] ++ str ":" ++ [10]
                    ++ str "1.5}" in
   let fetch := fun _ : jsstring => Response true 200 content in
   let JSON_parse := fun _ : jsstring =>
     Some (JObj [(str "exercises", JArr []); (str "nota", JNum (str "1.5"))]) in
   json_exercises (JSON_parse content) = Some []
   /\ parseTextExercises content
      = [ {| question := str "5}"; options := None; answer := None;
             explanation := None |} ]
   /\ fetchExercises None fetch JSON_parse (str "text/exercicios.json")
      = Some (loaded [])).
Proof.
  cbv zeta. repeat split; try (vm_compute; reflexivity).
  vm_compute. discriminate.
Qed.

(** C4, amended: the state [fetchExercises] leaves after a successful
    fetch, by the outcome of [JSON.parse].  An array is stored as it is,
    even when it is empty, and so is the array in the [exercises] field
    of an object; of an object without such an array the values that are
    objects with a [question] are stored, in the order of its
    properties; in each case the error is cleared and the text parser is
    not consulted.  When [JSON.parse] throws, when the value is [null], a
    boolean, a number or a string, or an object with neither, the text
    parser decides: its exercises are stored when there is at least one,
    and otherwise the operation fails with the message of
    [no_exercises_error], which no HTTP failure produces.  This is about
    the [exercises] and [error] state, not about what the render makes
    of the stored values. *)
Theorem fetchExercises_strategies
  (env : option jsstring) (fetch : jsstring -> fetch_outcome)
  (JSON_parse : jsstring -> option json)
  (filePath url content : jsstring) (status : N) :
  MediaUtils.validateMediaUrl env filePath = Some url ->
  fetch url = Response true status content ->
  exists v,
    fetchExercises env fetch JSON_parse filePath = Some v
    /\ (forall items, JSON_parse content = Some (JArr items) ->
        shown v = map FromJson items /\ error v = None)
    /\ (forall fields, JSON_parse content = Some (JObj fields) ->
        (forall items, get (str "exercises") fields = Some (JArr items) ->
         shown v = map FromJson items /\ error v = None)
        /\ ((forall items, get (str "exercises") fields <> Some (JArr items)) ->
            (filter looks_like_exercise (map snd fields) <> [] ->
             shown v
             = map FromJson (filter looks_like_exercise (map snd fields))
             /\ error v = None)
            /\ (filter looks_like_exercise (map snd fields) = [] ->
                v = text_fallback content)))
    /\ (JSON_parse content = None -> v = text_fallback content)
    /\ (JSON_parse content = Some JNull -> v = text_fallback content)
    /\ (forall b, JSON_parse content = Some (JBool b) ->
        v = text_fallback content)
    /\ (forall n, JSON_parse content = Some (JNum n) ->
        v = text_fallback content)
    /\ (forall t, JSON_parse content = Some (JStr t) ->
        v = text_fallback content)
    /\ (v = text_fallback content ->
        (parseTextExercises content = [] ->
         shown v = [] /\ error v = Some no_exercises_error)
        /\ (parseTextExercises content <> [] ->
            shown v = map FromText (parseTextExercises content)
            /\ error v = None))
    /\ (forall s, error v <> Some (http_error s)).
Proof.
  intros Hurl Hfetch. unfold fetchExercises. rewrite Hurl, Hfetch.
  cbn [negb]. eexists; split; [reflexivity|].
  unfold exercises_of_content.
  split; [intros items ->; split; reflexivity|].
  split.
  { intros fields ->. cbn [json_exercises]. split.
    - intros items ->. split; reflexivity.
    - intros Hno.
      destruct (get (str "exercises") fields) as [[| | | |items|]|];
        try (now elim (Hno items));
        (destruct (filter looks_like_exercise (map snd fields)) as [|x xs];
         split; intros H; try congruence; try (now elim H);
         split; reflexivity). }
  split; [intros ->; reflexivity|].
  split; [intros ->; reflexivity|].
  split; [intros b ->; reflexivity|].
  split; [intros n ->; reflexivity|].
  split; [intros t ->; reflexivity|].
  split.
  - intros ->. unfold text_fallback.
    destruct (parseTextExercises content) as [|e es]; split;
      try (intros H; discriminate H); try (intros H; now elim H);
      intros _; split; reflexivity.
  - intros s. destruct (json_exercises (JSON_parse content)); [discriminate|].
    unfold text_fallback.
    destruct (parseTextExercises content); cbn [failed loaded error];
      [|discriminate].
    intros H. apply (no_exercises_error_distinct s). congruence.
Qed.

Lemma fetchExercises_strategies_witness :
  exists v,
    fetchExercises None
      (fun _ => Response true 200
                  (str "{" ++ [34] ++ str "titulo" ++ [34] ++ str ":"
                     ++ [34] ++ str "Lista" ++ [34] ++ str ","
                     ++ [34] ++ str "q1" ++ [34] ++ str ":{"
                     ++ [34] ++ str "question" ++ [34] ++ str ":"
                     ++ [34] ++ str "What is X?" ++ [34] ++ str "}}"))
      (fun _ => Some (JObj [(str "titulo", JStr (str "Lista"));
                            (str "q1",
                             JObj [(str "question", JStr (str "What is X?"))])]))
      (str "Exercicios.txt") = Some v
    /\ shown v = [FromJson (JObj [(str "question", JStr (str "What is X?"))])]
    /\ error v = None.
Proof.
  destruct (fetchExercises_strategies None
              (fun _ => Response true 200
                  (str "{" ++ [34] ++ str "titulo" ++ [34] ++ str ":"
                     ++ [34] ++ str "Lista" ++ [34] ++ str ","
                     ++ [34] ++ str "q1" ++ [34] ++ str ":{"
                     ++ [34] ++ str "question" ++ [34] ++ str ":"
                     ++ [34] ++ str "What is X?" ++ [34] ++ str "}}"))
              (fun _ => Some (JObj [(str "titulo", JStr (str "Lista"));
                            (str "q1",
                             JObj [(str "question", JStr (str "What is X?"))])]))
              (str "Exercicios.txt")
              (str "http://localhost:8000/processed_data/text/Exercicios.txt")
              (str "{" ++ [34] ++ str "titulo" ++ [34] ++ str ":"
                     ++ [34] ++ str "Lista" ++ [34] ++ str ","
                     ++ [34] ++ str "q1" ++ [34] ++ str ":{"
                     ++ [34] ++ str "question" ++ [34] ++ str ":"
                     ++ [34] ++ str "What is X?" ++ [34] ++ str "}}")
              200 eq_refl eq_refl)
    as (v & Hv & _ & Hobj & _).
  exists v. split; [exact Hv|].
  destruct (Hobj _ eq_refl) as [_ Hextract].
  assert (Hno : forall items,
             get (str "exercises")
               [(str "titulo", JStr (str "Lista"));
                (str "q1", JObj [(str "question", JStr (str "What is X?"))])]
             <> Some (JArr items))
    by (intros items; vm_compute; discriminate).
  destruct (Hextract Hno) as [Hsome _].
  apply Hsome. vm_compute. discriminate.
Defined.

End ExerciseContentSpec.

(** ** Properties of the assessment flow *)

Module InteractivePromptSpec.
Import JS InteractivePrompt.

(** C6: when each of the five topic-level questions is answered
    "iniciante", the [knowledgeGaps] of the component are the topic list,
    in its order; this holds for a user id given as a prop and for one
    typed on the first screen, for any callback and analysis service; and
    in the sample run, which goes on to the end, it is the list the
    completion callback receives. *)
Theorem all_beginner_gaps
  (c : N) (u : jsstring) (cb : bool)
  (analyzeQuery : AnalyzeRequest -> option jsstring) :
  knowledgeGaps
    (ui (run {| initialUserId := Some (c :: u); onComplete := cb |}
           analyzeQuery all_beginner))
  = [str "HTML"; str "CSS"; str "JavaScript"; str "Acessibilidade Web";
     str "Responsividade"]
  /\ knowledgeGaps
       (ui (run {| initialUserId := None; onComplete := cb |}
              analyzeQuery (TypeUserId (c :: u) :: all_beginner)))
     = topics
  /\ map result_knowledgeGaps
       (calls (run sample_props sample_service complete_run))
     = [topics].
Proof. repeat split; vm_compute; reflexivity. Qed.

Section Firing.

Variable P : props.
Variable analyzeQuery : AnalyzeRequest -> option jsstring.
Hypothesis callback_given : onComplete P = true.

(** What a handler leaves alone. *)
Definition quiet (w w' : world) : Prop :=
  assessmentComplete (ui w') = assessmentComplete (ui w)
  /\ isLoading (ui w') = isLoading (ui w)
  /\ calls w' = calls w.

(** What completing the assessment does. *)
Definition fired (w w' : world) : Prop :=
  assessmentComplete (ui w') = true
  /\ isLoading (ui w') = false
  /\ exists r, calls w' = calls w ++ [r].

Lemma quiet_refl w : quiet w w.
Proof. repeat split. Qed.

Lemma updateUserLevel_flags st qs :
  assessmentComplete (updateUserLevel st qs) = assessmentComplete st
  /\ isLoading (updateUserLevel st qs) = isLoading st.
Proof.
  unfold updateUserLevel. cbv zeta.
  destruct (filter _ qs); split; reflexivity.
Qed.

Lemma analyse_flags closure qs st :
  assessmentComplete (fst (analyse analyzeQuery closure st qs))
    = assessmentComplete st
  /\ isLoading (fst (analyse analyzeQuery closure st qs)) = isLoading st.
Proof.
  revert st; induction qs as [|q qs IH]; intros st; cbn [analyse].
  - split; reflexivity.
  - destruct (analyzeQuery _) as [response|]; [|split; reflexivity].
    cbv zeta.
    destruct (_ || _); [destruct (negb _)|];
      destruct (IH st) as [H1 H2];
      try (split; assumption).
    match goal with
    | |- context [analyse _ _ ?s qs] => destruct (IH s) as [H3 H4]
    end.
    rewrite H3, H4. split; reflexivity.
Qed.

Lemma completeAssessment_cases closure w qs :
  isLoading (ui w) = false ->
  quiet w (completeAssessment P analyzeQuery closure w qs)
  \/ fired w (completeAssessment P analyzeQuery closure w qs).
Proof.
  intros Hl. unfold completeAssessment. cbv zeta.
  match goal with
  | |- context [analyse _ _ _ ?l] =>
      pose proof (analyse_flags closure l (ui w)) as [Ha Hb];
      destruct (analyse analyzeQuery closure (ui w) l) as [st ok]
  end.
  cbn [fst] in Ha, Hb. destruct ok.
  - right. rewrite callback_given. repeat split. eexists; reflexivity.
  - left. repeat split; cbn; congruence.
Qed.

Lemma handleAnswer_cases w a :
  isLoading (ui w) = false ->
  quiet w (handleAnswer P analyzeQuery w a)
  \/ fired w (handleAnswer P analyzeQuery w a).
Proof.
  intros Hl. unfold handleAnswer. cbv zeta.
  destruct (currentQuestion (ui w)) as [cq|]; [|left; apply quiet_refl].
  set (st2 := if includes (text cq) (str "formato você prefere")
              then _ else _).
  assert (H2 : assessmentComplete st2 = assessmentComplete (ui w)
               /\ isLoading st2 = isLoading (ui w))
    by (subst st2; destruct (includes (text cq) _); split; reflexivity).
  destruct H2 as [H2a H2l].
  set (st3 := if includes (text cq) (str "nível de conhecimento em")
              then _ else _).
  assert (H3 : match st3 with
               | Some st => assessmentComplete st = assessmentComplete (ui w)
                            /\ isLoading st = isLoading (ui w)
               | None => True
               end).
  { subst st3. destruct (includes (text cq) (str "nível de conhecimento em"));
      [|split; assumption].
    destruct (nth_error _ 1); [|exact I].
    cbv zeta.
    match goal with
    | |- context [updateUserLevel ?s ?q] =>
        destruct (updateUserLevel_flags s q) as [-> ->]
    end.
    destruct (eqb a _); split; assumption. }
  destruct st3 as [st|]; [|left; repeat split; assumption].
  destruct H3 as [H3a H3l].
  destruct (Nat.ltb _ _).
  - left. repeat split; assumption.
  - match goal with
    | |- context [completeAssessment _ _ ?c ?w0 ?q] =>
        destruct (completeAssessment_cases c w0 q) as [Hq|Hf];
        [cbn; congruence | |]
    end.
    + left. destruct Hq as (Ha & Hb & Hc). cbn in Ha, Hb, Hc.
      repeat split; congruence.
    + right. destruct Hf as (Ha & Hb & r & Hc). cbn in Hc.
      repeat split; try assumption. now exists r.
Qed.

Lemma run_effect_quiet w : quiet w (run_effect w).
Proof.
  unfold run_effect. destruct (_ && _); repeat split.
Qed.

(** Every event but the two buttons is quiet; "Próxima" is quiet or
    completes; the button of the completion screen adds one call. *)
Lemma handle_cases w ev :
  isLoading (ui w) = false ->
  match ev with
  | ClickNext =>
      quiet w (handle P analyzeQuery w ev)
      \/ (assessmentComplete (ui w) = false
          /\ fired w (handle P analyzeQuery w ev))
  | ClickContinue =>
      (assessmentComplete (ui w) = false
       /\ handle P analyzeQuery w ev = w)
      \/ (assessmentComplete (ui w) = true
          /\ quiet {| ui := ui w; calls := calls (handle P analyzeQuery w ev) |}
               (handle P analyzeQuery w ev)
          /\ exists r, calls (handle P analyzeQuery w ev) = calls w ++ [r])
  | _ => quiet w (handle P analyzeQuery w ev)
  end.
Proof.
  intros Hl. destruct ev; cbn [handle].
  - destruct (initial_screen _); repeat split.
  - destruct (_ && _); [|apply quiet_refl].
    unfold startAssessment. destruct (is_empty _); repeat split.
  - destruct (input_shown _); repeat split.
  - destruct (next_enabled (ui w)) eqn:E; [|left; apply quiet_refl].
    destruct (handleAnswer_cases w (userInput (ui w)) Hl) as [H|H];
      [now left | right; split; [|exact H]].
    unfold next_enabled, question_screen in E.
    destruct (assessmentComplete (ui w)); [|reflexivity].
    rewrite andb_false_r in E. discriminate E.
  - unfold completion_screen. rewrite Hl. cbn [negb andb].
    destruct (assessmentComplete (ui w)); [right | left; now split].
    unfold continueToContent. rewrite callback_given.
    repeat split. eexists; reflexivity.
Qed.

(** The invariant of the runs of the component. *)
Definition flow_inv (w : world) : Prop :=
  isLoading (ui w) = false
  /\ (assessmentComplete (ui w) = false -> calls w = []).

Lemma mount_inv : flow_inv (mount P).
Proof.
  unfold mount. destruct (run_effect_quiet {| ui := initial_state P; calls := [] |})
    as (Ha & Hl & Hc).
  split; [rewrite Hl; reflexivity | intros _; rewrite Hc; reflexivity].
Qed.

Lemma step_facts w ev :
  flow_inv w ->
  flow_inv (step P analyzeQuery w ev)
  /\ (assessmentComplete (ui w) = false ->
      assessmentComplete (ui (step P analyzeQuery w ev)) = true ->
      ev = ClickNext /\ length (calls (step P analyzeQuery w ev)) = 1%nat)
  /\ (assessmentComplete (ui w) = true ->
      assessmentComplete (ui (step P analyzeQuery w ev)) = true
      /\ length (calls (step P analyzeQuery w ev))
         = (length (calls w)
            + match ev with ClickContinue => 1 | _ => 0 end)%nat).
Proof.
  intros [Hl Hc]. unfold step, flow_inv.
  destruct (run_effect_quiet (handle P analyzeQuery w ev)) as (Ea & El & Ec).
  rewrite Ea, El, Ec.
  pose proof (handle_cases w ev Hl) as H.
  assert (Hquiet : quiet w (handle P analyzeQuery w ev) ->
    (isLoading (ui (handle P analyzeQuery w ev)) = false
     /\ (assessmentComplete (ui (handle P analyzeQuery w ev)) = false ->
         calls (handle P analyzeQuery w ev) = []))
    /\ (assessmentComplete (ui w) = false ->
        assessmentComplete (ui (handle P analyzeQuery w ev)) = true ->
        ev = ClickNext
        /\ length (calls (handle P analyzeQuery w ev)) = 1%nat)
    /\ (assessmentComplete (ui w) = true ->
        assessmentComplete (ui (handle P analyzeQuery w ev)) = true
        /\ length (calls (handle P analyzeQuery w ev))
           = (length (calls w) + 0)%nat)).
  { intros (Qa & Ql & Qc). rewrite Qa, Ql, Qc.
    repeat split; try assumption; try congruence; lia. }
  destruct ev; try (rewrite Nat.add_0_r in Hquiet |- *; now apply Hquiet).
  - (* ClickNext *)
    destruct H as [H | [Hnc (Fa & Fl & r & Fc)]]; [now apply Hquiet|].
    rewrite Fa, Fl, Fc, (Hc Hnc). cbn [app length].
    repeat split; intros; congruence.
  - (* ClickContinue *)
    destruct H as [[Hnc ->] | (Hyes & (Qa & Ql & _) & r & Fc)].
    + rewrite Hnc, Hl. repeat split; intros; try discriminate; auto.
    + cbn [ui] in Qa, Ql. rewrite Qa, Ql, Fc, Hyes, length_app. cbn [length].
      repeat split; intros; try discriminate; auto.
Qed.

Lemma run_inv trace : flow_inv (run P analyzeQuery trace).
Proof.
  unfold run. generalize mount_inv. generalize (mount P).
  induction trace as [|ev trace IH]; intros w Hw; cbn [fold_left];
    [exact Hw|].
  apply IH. now apply step_facts.
Qed.

(** C2, amended: along every run of the component, (1) as long as the
    assessment is not complete [onComplete] has not been called, so no
    intermediate step fires it; (2) the step that completes the
    assessment is a press of "Próxima" and leaves exactly one call; (3)
    once the assessment is complete it stays so, each press of the button
    of the completion screen calls [onComplete] once more, and no other
    event calls it. *)
Theorem onComplete_firing (trace : list event) (ev : event) :
  let w := run P analyzeQuery trace in
  let w' := step P analyzeQuery w ev in
  (assessmentComplete (ui w) = false -> calls w = [])
  /\ (assessmentComplete (ui w) = false ->
      assessmentComplete (ui w') = true ->
      ev = ClickNext /\ length (calls w') = 1%nat)
  /\ (assessmentComplete (ui w) = true ->
      assessmentComplete (ui w') = true
      /\ length (calls w')
         = (length (calls w)
            + match ev with ClickContinue => 1 | _ => 0 end)%nat).
Proof.
  cbv zeta. pose proof (run_inv trace) as Hinv.
  destruct (step_facts _ ev Hinv) as (_ & H2 & H3).
  split; [apply Hinv | split; assumption].
Qed.

End Firing.

Lemma onComplete_firing_witness :
  ClickNext = ClickNext
  /\ length (calls (step sample_props sample_service
                      (run sample_props sample_service before_last_click)
                      ClickNext)) = 1%nat.
Proof.
  destruct (onComplete_firing sample_props sample_service eq_refl
              before_last_click ClickNext) as (_ & H & _).
  apply H; vm_compute; reflexivity.
Defined.

(** C2, as stated, fails: in a completed run in which the user presses
    the button of the completion screen, [onComplete] has been called
    twice, once by [completeAssessment] and once by the button. *)
Lemma continue_button_fires_again :
  let done := run sample_props sample_service complete_run in
  let after := run sample_props sample_service (complete_run ++ [ClickContinue]) in
  assessmentComplete (ui done) = true
  /\ length (calls done) = 1%nat
  /\ assessmentComplete (ui after) = true
  /\ length (calls after) = 2%nat.
Proof. vm_compute. repeat split. Qed.

End InteractivePromptSpec.

(** ** More properties of [mediaUtils.ts] *)

Module MediaUtilsMore.
Import JS JSFacts MediaUtils MediaUtilsSpec.

Lemma eqb_eq (a b : jsstring) : eqb a b = true -> a = b.
Proof.
  revert b; induction a as [|x a IH]; intros [|y b] H; try discriminate H;
    [reflexivity|].
  cbn in H. apply andb_true_iff in H as [H1 H2].
  apply N.eqb_eq in H1. now rewrite H1, (IH _ H2).
Qed.

Lemma includes_false_startsWith (s p : jsstring) :
  includes s p = false -> startsWith s p = false.
Proof.
  destruct s; cbn [includes]; [auto|].
  intros H. now apply orb_false_iff in H as [H _].
Qed.

(** X1: every URL the normalizer returns for a non-empty path is either
    the path itself, when it is an absolute [http(s)] URL, or a URL under
    the storage root of the API, [<apiUrl>/processed_data/...]; the
    result is empty only for the empty path. *)
Theorem validateMediaUrl_under_root (env : option jsstring) (url : jsstring) :
  exists r,
    validateMediaUrl env url = Some r
    /\ (is_empty r = is_empty url)
    /\ (is_absolute_url url = true -> r = url)
    /\ (is_empty url = false -> is_absolute_url url = false ->
        startsWith r (apiUrl env ++ root_marker) = true).
Proof.
  unfold validateMediaUrl.
  destruct url as [|c url]; [exists []; repeat split; intros; discriminate|].
  cbn [is_empty].
  destruct (is_absolute_url (c :: url)) eqn:Ea.
  { exists (c :: url). repeat split; intros; discriminate. }
  cbv zeta. destruct (startsWith (c :: url) root_marker) eqn:Er.
  - eexists; split; [reflexivity|]. split; [|split].
    + apply is_empty_app_l, apiUrl_nonempty.
    + intros H; discriminate H.
    + intros _ _. apply startsWith_spec in Er as [t ->].
      rewrite app_assoc. apply startsWith_app.
  - destruct (cleanPath_of_defined (c :: url)) as [p ->].
    eexists; split; [reflexivity|]. split; [|split].
    + apply is_empty_app_l, apiUrl_nonempty.
    + intros H; discriminate H.
    + intros _ _. rewrite app_assoc. apply startsWith_app.
Qed.

Lemma validateMediaUrl_media_dir (env : option jsstring) (p : jsstring) :
  hasMediaDir p = true ->
  includes p root_marker = false ->
  validateMediaUrl env p = Some (apiUrl env ++ root_marker ++ p).
Proof.
  intros Hdir Hinc.
  assert (Hshape : is_empty p = false /\ is_absolute_url p = false
                   /\ strip_leading_slashes p = p).
  { unfold hasMediaDir, mediaDirs in Hdir. cbn [existsb] in Hdir.
    repeat (apply orb_true_iff in Hdir as [Hdir|Hdir]);
      try discriminate Hdir;
      apply startsWith_spec in Hdir as [t ->];
      repeat split; reflexivity. }
  destruct Hshape as (He & Ha & Hs).
  unfold validateMediaUrl. rewrite He, Ha. cbv zeta.
  rewrite (includes_false_startsWith _ _ Hinc).
  unfold cleanPath_of, after_root_marker. rewrite Hinc, Hs, Hdir.
  reflexivity.
Qed.

(** X2: a path that already begins with one of the five media
    directories ([text/], [audio/], [videos/], [images/],
    [transcripts/]) and does not contain the root marker is placed under
    the storage root as it is: its extension is not looked at (a [.mp4]
    under [text/] stays under [text/]). *)
Theorem media_dir_prefix_kept (env : option jsstring) (p : jsstring) :
  hasMediaDir p = true ->
  includes p root_marker = false ->
  validateMediaUrl env p = Some (apiUrl env ++ root_marker ++ p).
Proof. apply validateMediaUrl_media_dir. Qed.

Lemma media_dir_prefix_kept_witness :
  validateMediaUrl None (str "text/aula.mp4")
  = Some (apiUrl None ++ root_marker ++ str "text/aula.mp4").
Proof.
  apply (media_dir_prefix_kept None (str "text/aula.mp4"));
    vm_compute; reflexivity.
Defined.

(** *** Splitting at the root marker *)

Lemma split_from_skip (sep t rest cur : jsstring) :
  split_from sep (t ++ rest) (length t) cur = split_from sep rest 0 cur.
Proof.
  induction t as [|x t IH]; [reflexivity|].
  cbn [app length split_from]. exact IH.
Qed.

Lemma split_from_absent (sep s cur : jsstring) :
  includes s sep = false -> split_from sep s 0 cur = [rev cur ++ s].
Proof.
  revert cur; induction s as [|x s IH]; intros cur H.
  - cbn. now rewrite app_nil_r.
  - cbn [includes] in H. apply orb_false_iff in H as [H1 H2].
    cbn [split_from]. rewrite H1, (IH _ H2). cbn [rev].
    now rewrite <- app_assoc.
Qed.

Lemma split_from_first (sep pre rest cur : jsstring) :
  sep <> [] ->
  indexOf (pre ++ sep ++ rest) sep = Some (length pre) ->
  split_from sep (pre ++ sep ++ rest) 0 cur
  = (rev cur ++ pre) :: split_from sep rest 0 [].
Proof.
  intros Hsep. revert cur; induction pre as [|x pre IH]; intros cur H.
  - cbn [app]. destruct sep as [|c t]; [congruence|].
    pose proof (startsWith_app (c :: t) rest) as Hs. cbn [app] in Hs.
    cbn [app split_from]. rewrite Hs.
    rewrite app_nil_r. f_equal.
    replace (length (c :: t) - 1)%nat with (length t) by (cbn; lia).
    apply split_from_skip.
  - cbn [app indexOf] in H.
    destruct (startsWith (x :: pre ++ sep ++ rest) sep) eqn:E;
      [discriminate H|].
    destruct (indexOf (pre ++ sep ++ rest) sep) as [n|] eqn:En;
      [|discriminate H].
    injection H as Hn. cbn [app split_from]. rewrite E.
    rewrite IH by (now rewrite Hn). cbn [rev].
    now rewrite <- app_assoc.
Qed.

Lemma indexOf_includes (s p : jsstring) (n : nat) :
  indexOf s p = Some n -> includes s p = true.
Proof.
  revert n; induction s as [|x s IH]; intros n H; cbn [indexOf includes] in *.
  - destruct (startsWith [] p); [reflexivity | discriminate].
  - destruct (startsWith (x :: s) p); [reflexivity|].
    destruct (indexOf s p) as [k|]; [|discriminate].
    cbn. now apply (IH k).
Qed.

Lemma indexOf_pos_not_startsWith (s p : jsstring) (n : nat) :
  indexOf s p = Some (S n) -> startsWith s p = false.
Proof.
  destruct s as [|x s]; cbn [indexOf]; destruct (startsWith _ p);
    try reflexivity; discriminate.
Qed.

(** X3: an absolute file-system path resolves to the same URL as the
    relative path that follows its root marker: everything up to and
    including the first [/processed_data/] is dropped. *)
Theorem path_before_root_marker_dropped
  (env : option jsstring) (c : N) (pre rest : jsstring) :
  is_absolute_url ((c :: pre) ++ root_marker ++ rest) = false ->
  indexOf ((c :: pre) ++ root_marker ++ rest) root_marker
    = Some (length (c :: pre)) ->
  includes rest root_marker = false ->
  is_empty rest = false ->
  is_absolute_url rest = false ->
  validateMediaUrl env ((c :: pre) ++ root_marker ++ rest)
  = validateMediaUrl env rest.
Proof.
  intros Ha Hidx Hrest Hne Habs.
  assert (Hclean : cleanPath_of ((c :: pre) ++ root_marker ++ rest)
                   = cleanPath_of rest).
  { unfold cleanPath_of, after_root_marker.
    rewrite (indexOf_includes _ _ _ Hidx), Hrest.
    unfold split. rewrite split_from_first by (discriminate || exact Hidx).
    rewrite (split_from_absent _ _ _ Hrest). reflexivity. }
  unfold validateMediaUrl at 1.
  rewrite Ha, Hclean.
  cbn [length] in Hidx.
  rewrite (indexOf_pos_not_startsWith _ _ _ Hidx).
  cbn [app is_empty]. cbv zeta.
  unfold validateMediaUrl. rewrite Hne, Habs. cbv zeta.
  rewrite (includes_false_startsWith _ _ Hrest). reflexivity.
Qed.

Lemma path_before_root_marker_dropped_witness :
  validateMediaUrl None
    ((47 :: str "home/app/backend") ++ root_marker ++ str "videos/Aula 1.mp4")
  = validateMediaUrl None (str "videos/Aula 1.mp4").
Proof.
  apply (path_before_root_marker_dropped None 47 (str "home/app/backend")
           (str "videos/Aula 1.mp4")); vm_compute; reflexivity.
Defined.

(** *** The extension of a generated URL *)

(** The piece after the last [.] of a string; [cur] is the current
    piece, reversed. *)
Fixpoint last_piece (s cur : jsstring) : jsstring :=
  match s with
  | [] => rev cur
  | x :: s' => if 46 =? x then last_piece s' [] else last_piece s' (x :: cur)
  end.

Lemma pop_cons {A : Type} (a : A) (l : list A) :
  l <> [] -> pop (a :: l) = pop l.
Proof. destruct l; [congruence | reflexivity]. Qed.

Lemma pop_split_dot (s cur : jsstring) :
  pop (split_from [46] s 0 cur) = Some (last_piece s cur).
Proof.
  revert cur; induction s as [|x s IH]; intros cur; [reflexivity|].
  cbn [split_from last_piece startsWith]. rewrite andb_true_r.
  destruct (46 =? x); [|apply IH].
  rewrite pop_cons; [apply IH|].
  pose proof (split_from_nonempty [46] s (length [46] - 1) []) as H.
  intros E; rewrite E in H; cbn in H; lia.
Qed.

Lemma extension_last_piece (p : jsstring) :
  extension p = last_piece (toLowerCase p) [].
Proof.
  unfold extension, split. change (str ".") with [46].
  rewrite pop_split_dot. now destruct (last_piece _ _).
Qed.

Lemma last_piece_cur (b cur : jsstring) :
  last_piece b cur
  = if existsb (N.eqb 46) b then last_piece b [] else rev cur ++ b.
Proof.
  revert cur; induction b as [|x b IH]; intros cur;
    cbn [last_piece existsb].
  - now rewrite app_nil_r.
  - destruct (46 =? x); cbn [orb]; [reflexivity|].
    rewrite IH, (IH [x]). destruct (existsb _ b); [reflexivity|].
    cbn [rev app]. now rewrite <- app_assoc.
Qed.

Lemma last_piece_app (a b cur : jsstring) :
  last_piece (a ++ b) cur
  = if existsb (N.eqb 46) b then last_piece b [] else last_piece a cur ++ b.
Proof.
  revert cur; induction a as [|x a IH]; intros cur; cbn [app last_piece].
  - apply last_piece_cur.
  - destruct (46 =? x); apply IH.
Qed.

(** The extension of a URL that ends in a file name placed right after
    a [/] is the extension of the file name, or else has a [/] in it. *)
Lemma extension_after_slash (a0 f : jsstring) :
  extension ((a0 ++ [47]) ++ f) = extension f
  \/ In 47 (extension ((a0 ++ [47]) ++ f)).
Proof.
  rewrite !extension_last_piece, !toLowerCase_app.
  change (toLowerCase [47]) with [47].
  rewrite last_piece_app.
  destruct (existsb (N.eqb 46) (toLowerCase f)); [now left | right].
  rewrite last_piece_app. cbn [existsb N.eqb orb].
  apply in_or_app; left. apply in_or_app; right. now left.
Qed.

Lemma lower_cu_slash (c : N) : In 47 (lower_cu c) -> c = 47.
Proof.
  unfold lower_cu.
  destruct ((65 <=? c) && (c <=? 90)) eqn:E1.
  { apply andb_true_iff in E1 as [H1 H2].
    apply N.leb_le in H1. intros [H|[]]. lia. }
  destruct ((192 <=? c) && (c <=? 222) && negb (c =? 215)) eqn:E2.
  { apply andb_true_iff in E2 as [E2 _].
    apply andb_true_iff in E2 as [H1 H2].
    apply N.leb_le in H1. intros [H|[]]. lia. }
  repeat match goal with
         | |- In _ (if ?b then _ else _) -> _ => destruct b
         end;
    cbn; intros H; repeat (destruct H as [H|H]; try discriminate H);
    try contradiction; now subst.
Qed.

Lemma toLowerCase_no_slash (f : jsstring) :
  ~ In 47 f -> ~ In 47 (toLowerCase f).
Proof.
  induction f as [|c f IH]; [auto|].
  intros H Hin. cbn in Hin. apply in_app_or in Hin as [Hin|Hin].
  - apply H. left. now apply lower_cu_slash.
  - apply IH; [|exact Hin]. intros Hf; apply H; now right.
Qed.

Lemma startsWith_app_tail (a b p0 : jsstring) (c : N) :
  ~ In c b ->
  startsWith (a ++ b) (p0 ++ [c]) = true -> startsWith a (p0 ++ [c]) = true.
Proof.
  intros Hb. revert a; induction p0 as [|z p0 IH]; intros a H.
  - destruct a as [|y a]; [|exact H].
    cbn [app] in H. exfalso; apply Hb.
    apply (startsWith_incl _ _ H). now left.
  - destruct a as [|y a].
    + cbn [app] in H. exfalso; apply Hb.
      apply (startsWith_incl _ _ H). right. apply in_or_app; right; now left.
    + cbn [app startsWith] in H |- *.
      apply andb_true_iff in H as [H1 H2].
      now rewrite H1, (IH _ H2).
Qed.

Lemma includes_app_tail (a b p0 : jsstring) (c : N) :
  ~ In c b ->
  includes (a ++ b) (p0 ++ [c]) = true -> includes a (p0 ++ [c]) = true.
Proof.
  intros Hb. induction a as [|y a IH]; intros H.
  - cbn [app] in H. exfalso; apply Hb.
    apply (includes_incl _ _ H). apply in_or_app; right; now left.
  - cbn [app includes] in H |- *. apply orb_true_iff in H as [H|H].
    + change (y :: a ++ b) with ((y :: a) ++ b) in H.
      now rewrite (startsWith_app_tail _ _ _ _ Hb H).
    + rewrite (IH H). apply orb_true_r.
Qed.

Lemma includes_false_app_bare (a f p0 : jsstring) :
  ~ In 47 f ->
  includes (toLowerCase a) (p0 ++ [47]) = false ->
  includes (toLowerCase (a ++ f)) (p0 ++ [47]) = false.
Proof.
  intros Hf Ha. rewrite toLowerCase_app.
  destruct (includes (toLowerCase a ++ toLowerCase f) (p0 ++ [47])) eqn:E;
    [|reflexivity].
  apply includes_app_tail in E; [congruence|].
  now apply toLowerCase_no_slash.
Qed.

(** The members of the three media extension sets. *)
Lemma media_ext_cases (e : jsstring) :
  arr_includes (video_exts ++ audio_exts ++ image_exts) e = true ->
  In e (video_exts ++ audio_exts ++ image_exts).
Proof.
  unfold arr_includes. intros H. apply existsb_exists in H as (x & Hx & He).
  apply eqb_eq in He. now subst.
Qed.

Lemma media_ext_no_slash (e : jsstring) :
  arr_includes (video_exts ++ audio_exts ++ image_exts) e = true ->
  ~ In 47 e.
Proof.
  intros H. apply media_ext_cases in H.
  vm_compute in H.
  repeat (destruct H as [H|H];
          [subst e; vm_compute; intros Hin;
           repeat (destruct Hin as [Hin|Hin]; [discriminate Hin|]);
           exact Hin|]).
  contradiction.
Qed.

Lemma arr_includes_app (l1 l2 : list jsstring) (e : jsstring) :
  arr_includes (l1 ++ l2) e = arr_includes l1 e || arr_includes l2 e.
Proof. apply existsb_app. Qed.

Lemma audio_ext_not_video (e : jsstring) :
  arr_includes audio_exts e = true -> arr_includes video_exts e = false.
Proof.
  intros H. apply existsb_exists in H as (x & Hx & He).
  apply eqb_eq in He; subst x. vm_compute in Hx.
  repeat (destruct Hx as [Hx|Hx]; [subst e; reflexivity|]). contradiction.
Qed.

Lemma image_ext_not_video_audio (e : jsstring) :
  arr_includes image_exts e = true ->
  arr_includes video_exts e = false /\ arr_includes audio_exts e = false.
Proof.
  intros H. apply existsb_exists in H as (x & Hx & He).
  apply eqb_eq in He; subst x. vm_compute in Hx.
  repeat (destruct Hx as [Hx|Hx]; [subst e; split; reflexivity|]).
  contradiction.
Qed.

(** An extension with a [/] in it belongs to none of the sets. *)
Lemma slash_ext_not_media (e : jsstring) :
  In 47 e ->
  arr_includes video_exts e = false /\ arr_includes audio_exts e = false
  /\ arr_includes image_exts e = false.
Proof.
  intros Hin.
  destruct (arr_includes (video_exts ++ audio_exts ++ image_exts) e) eqn:E.
  - exfalso. now apply (media_ext_no_slash e E).
  - rewrite !arr_includes_app in E.
    apply orb_false_iff in E as [E1 E]. apply orb_false_iff in E as [E2 E3].
    auto.
Qed.

(** X4: a bare file name with an audio extension is placed under
    [audio/], and the classifier reports [audio] for the generated URL
    provided the lower-cased URL prefix [<apiUrl>/processed_data/audio/]
    does not contain [/videos/]: the classifier looks at the whole URL,
    API base included, and tests [/videos/] first. *)
Theorem audio_filename_roundtrip (env : option jsstring) (f : jsstring) :
  ~ In 47 f ->
  arr_includes audio_exts (extension f) = true ->
  includes (toLowerCase (apiUrl env ++ str "/processed_data/audio/"))
    (str "/videos/") = false ->
  validateMediaUrl env f
    = Some (apiUrl env ++ str "/processed_data/" ++ str "audio/" ++ f)
  /\ getFileType (apiUrl env ++ str "/processed_data/" ++ str "audio/" ++ f)
     = audio.
Proof.
  intros Hbare Hext Hapi. split.
  - unfold validateMediaUrl.
    destruct f as [|c f]; [discriminate Hext|].
    cbn [is_empty]. unfold is_absolute_url.
    rewrite !bare_not_startsWith by (assumption || (cbn; tauto)).
    cbn [orb]. rewrite bare_cleanPath_of by assumption. cbv zeta.
    rewrite bare_hasMediaDir by assumption. cbn [negb].
    unfold infer_subdir. rewrite (audio_ext_not_video _ Hext), Hext.
    reflexivity.
  - unfold getFileType.
    rewrite is_empty_app_l by apply apiUrl_nonempty. cbv zeta.
    replace (apiUrl env ++ str "/processed_data/" ++ str "audio/" ++ f)
      with (((apiUrl env ++ str "/processed_data/audio") ++ [47]) ++ f)
      by (rewrite <- !app_assoc; reflexivity).
    assert (Hv : arr_includes video_exts
                   (extension (((apiUrl env ++ str "/processed_data/audio")
                                  ++ [47]) ++ f)) = false).
    { destruct (extension_after_slash
                  (apiUrl env ++ str "/processed_data/audio") f) as [-> | H].
      - now apply audio_ext_not_video.
      - now apply slash_ext_not_media. }
    rewrite Hv. cbn [orb].
    assert (Hp : includes
                   (toLowerCase (((apiUrl env ++ str "/processed_data/audio")
                                    ++ [47]) ++ f)) (str "/videos/") = false).
    { change (str "/videos/") with (str "/videos" ++ [47]).
      apply includes_false_app_bare; [assumption|].
      rewrite <- app_assoc. exact Hapi. }
    rewrite Hp.
    replace (((apiUrl env ++ str "/processed_data/audio") ++ [47]) ++ f)
      with ((apiUrl env ++ str "/processed_data") ++ str "/audio/" ++ f)
      by (rewrite <- !app_assoc; reflexivity).
    rewrite toLowerCase_app, (toLowerCase_app (str "/audio/")).
    change (toLowerCase (str "/audio/")) with (str "/audio/").
    rewrite includes_app, orb_true_r. reflexivity.
Qed.

Lemma audio_filename_roundtrip_witness :
  validateMediaUrl None (str "Dica do professor.MP3")
    = Some (apiUrl None ++ str "/processed_data/" ++ str "audio/"
              ++ str "Dica do professor.MP3")
  /\ getFileType (apiUrl None ++ str "/processed_data/" ++ str "audio/"
                    ++ str "Dica do professor.MP3")
     = audio.
Proof.
  apply (audio_filename_roundtrip None (str "Dica do professor.MP3")).
  - vm_compute. intros H. repeat (destruct H as [H|H]; [discriminate H|]).
    exact H.
  - vm_compute. reflexivity.
  - vm_compute. reflexivity.
Defined.

(** X5: a bare file name with an image extension is placed under
    [images/], and the classifier reports [image] for the generated URL
    provided the lower-cased URL prefix [<apiUrl>/processed_data/images/]
    contains neither [/videos/] nor [/audio/], which the classifier
    tests first. *)
Theorem image_filename_roundtrip (env : option jsstring) (f : jsstring) :
  ~ In 47 f ->
  arr_includes image_exts (extension f) = true ->
  includes (toLowerCase (apiUrl env ++ str "/processed_data/images/"))
    (str "/videos/") = false ->
  includes (toLowerCase (apiUrl env ++ str "/processed_data/images/"))
    (str "/audio/") = false ->
  validateMediaUrl env f
    = Some (apiUrl env ++ str "/processed_data/" ++ str "images/" ++ f)
  /\ getFileType (apiUrl env ++ str "/processed_data/" ++ str "images/" ++ f)
     = image.
Proof.
  intros Hbare Hext Hv Ha.
  destruct (image_ext_not_video_audio _ Hext) as [Hnv Hna]. split.
  - unfold validateMediaUrl.
    destruct f as [|c f]; [discriminate Hext|].
    cbn [is_empty]. unfold is_absolute_url.
    rewrite !bare_not_startsWith by (assumption || (cbn; tauto)).
    cbn [orb]. rewrite bare_cleanPath_of by assumption. cbv zeta.
    rewrite bare_hasMediaDir by assumption. cbn [negb].
    unfold infer_subdir. rewrite Hnv, Hna, Hext. reflexivity.
  - unfold getFileType.
    rewrite is_empty_app_l by apply apiUrl_nonempty. cbv zeta.
    replace (apiUrl env ++ str "/processed_data/" ++ str "images/" ++ f)
      with (((apiUrl env ++ str "/processed_data/images") ++ [47]) ++ f)
      by (rewrite <- !app_assoc; reflexivity).
    assert (He : arr_includes video_exts
                   (extension (((apiUrl env ++ str "/processed_data/images")
                                  ++ [47]) ++ f)) = false
                 /\ arr_includes audio_exts
                      (extension (((apiUrl env ++ str "/processed_data/images")
                                     ++ [47]) ++ f)) = false).
    { destruct (extension_after_slash
                  (apiUrl env ++ str "/processed_data/images") f) as [-> | H].
      - now split.
      - apply slash_ext_not_media in H. tauto. }
    destruct He as [-> ->]. cbn [orb].
    assert (Hp : forall p0,
               includes (toLowerCase (apiUrl env ++ str "/processed_data/images/"))
                 (p0 ++ [47]) = false ->
               includes
                 (toLowerCase (((apiUrl env ++ str "/processed_data/images")
                                  ++ [47]) ++ f)) (p0 ++ [47]) = false).
    { intros p0 H. apply includes_false_app_bare; [assumption|].
      rewrite <- app_assoc. exact H. }
    change (str "/videos/") with (str "/videos" ++ [47]).
    change (str "/audio/") with (str "/audio" ++ [47]).
    rewrite (Hp (str "/videos") Hv), (Hp (str "/audio") Ha).
    replace (((apiUrl env ++ str "/processed_data/images") ++ [47]) ++ f)
      with ((apiUrl env ++ str "/processed_data") ++ str "/images/" ++ f)
      by (rewrite <- !app_assoc; reflexivity).
    rewrite toLowerCase_app, (toLowerCase_app (str "/images/")).
    change (toLowerCase (str "/images/")) with (str "/images/").
    rewrite includes_app, orb_true_r. reflexivity.
Qed.

Lemma image_filename_roundtrip_witness :
  validateMediaUrl None (str "Infografico-1.JPG")
    = Some (apiUrl None ++ str "/processed_data/" ++ str "images/"
              ++ str "Infografico-1.JPG")
  /\ getFileType (apiUrl None ++ str "/processed_data/" ++ str "images/"
                    ++ str "Infografico-1.JPG")
     = image.
Proof.
  apply (image_filename_roundtrip None (str "Infografico-1.JPG")).
  - vm_compute. intros H. repeat (destruct H as [H|H]; [discriminate H|]).
    exact H.
  - vm_compute. reflexivity.
  - vm_compute. reflexivity.
  - vm_compute. reflexivity.
Defined.

(** *** Case *)

Lemma lower_cu_id (x : N) :
  (x < 65 \/ 90 < x) ->
  (x < 192 \/ 222 < x \/ x = 215) ->
  x <> 304 -> x <> 376 -> x <> 7838 -> x <> 8490 -> x <> 8491 ->
  lower_cu x = [x].
Proof.
  intros H1 H2 H3 H4 H5 H6 H7. unfold lower_cu.
  destruct (N.leb_spec 65 x), (N.leb_spec x 90); cbn [andb]; try lia.
  all: destruct (N.leb_spec 192 x), (N.leb_spec x 222),
         (N.eqb_spec x 215); cbn [andb negb]; try lia.
  all: destruct (N.eqb_spec x 304); [lia|].
  all: destruct (N.eqb_spec x 376); [lia|].
  all: destruct (N.eqb_spec x 7838); [lia|].
  all: destruct (N.eqb_spec x 8490); [lia|].
  all: destruct (N.eqb_spec x 8491); [lia|]; reflexivity.
Qed.

Lemma lower_cu_fixed (c : N) : toLowerCase (lower_cu c) = lower_cu c.
Proof.
  unfold lower_cu.
  destruct ((65 <=? c) && (c <=? 90)) eqn:E1.
  { apply andb_true_iff in E1 as [H1 H2].
    apply N.leb_le in H1, H2. cbn [toLowerCase flat_map].
    rewrite lower_cu_id by lia. reflexivity. }
  destruct ((192 <=? c) && (c <=? 222) && negb (c =? 215)) eqn:E2.
  { apply andb_true_iff in E2 as [E2 _].
    apply andb_true_iff in E2 as [H1 H2].
    apply N.leb_le in H1, H2. cbn [toLowerCase flat_map].
    rewrite lower_cu_id by lia. reflexivity. }
  repeat match goal with
         | |- context [if ?b then _ else _] =>
             destruct b eqn:?; [reflexivity|]
         end.
  cbn [toLowerCase flat_map]. rewrite app_nil_r.
  apply lower_cu_id.
  - apply andb_false_iff in E1 as [E|E]; apply N.leb_gt in E; lia.
  - apply andb_false_iff in E2 as [E|E].
    + apply andb_false_iff in E as [E|E]; apply N.leb_gt in E; lia.
    + apply negb_false_iff, N.eqb_eq in E. lia.
  - now apply N.eqb_neq.
  - now apply N.eqb_neq.
  - now apply N.eqb_neq.
  - now apply N.eqb_neq.
  - now apply N.eqb_neq.
Qed.

Lemma toLowerCase_idempotent (s : jsstring) :
  toLowerCase (toLowerCase s) = toLowerCase s.
Proof.
  induction s as [|c s IH]; [reflexivity|].
  change (toLowerCase (c :: s)) with (lower_cu c ++ toLowerCase s).
  now rewrite toLowerCase_app, lower_cu_fixed, IH.
Qed.

Lemma lower_cu_nonempty (c : N) : lower_cu c <> [].
Proof.
  unfold lower_cu.
  repeat match goal with
         | |- context [if ?b then _ else _] => destruct b
         end; discriminate.
Qed.

Lemma is_empty_toLowerCase (s : jsstring) :
  is_empty (toLowerCase s) = is_empty s.
Proof.
  destruct s as [|c s]; [reflexivity|]. cbn [toLowerCase flat_map is_empty].
  pose proof (lower_cu_nonempty c). now destruct (lower_cu c).
Qed.

(** X6: the classifier does not depend on letter case: a path and its
    lower-case form are classified alike. *)
Theorem getFileType_case_insensitive (filePath : jsstring) :
  getFileType (toLowerCase filePath) = getFileType filePath.
Proof.
  unfold getFileType, extension.
  now rewrite is_empty_toLowerCase, toLowerCase_idempotent.
Qed.

End MediaUtilsMore.

(** ** More properties of [AdaptiveResponse.tsx] *)

Module AdaptiveResponseMore.
Import JS JSFacts Regex RegexFacts MediaUtils MediaUtilsSpec MediaUtilsMore.
Import AdaptiveResponse AdaptiveResponseSpec AdaptiveResponseView.

Lemma rep_lazy_inv (p : N -> bool) (s : jsstring) k r :
  rep false p 0 None s k = Some r ->
  exists a b, s = a ++ b /\ forallb p a = true /\ k b = Some r.
Proof.
  induction s as [|x s IH]; rewrite rep_lazy_unfold; intros H.
  - destruct (k []) eqn:E; [|discriminate].
    injection H as <-. exists [], []. repeat split. exact E.
  - destruct (k (x :: s)) eqn:E.
    + injection H as <-. exists [], (x :: s). repeat split. exact E.
    + destruct (p x) eqn:Ep; [|discriminate].
      destruct (IH H) as (a & b & -> & Ha & Hb).
      exists (x :: a), b. repeat split; [|exact Hb].
      cbn. now rewrite Ep.
Qed.

Lemma exec_from_inv (r : regex) total (s : jsstring) c :
  exec_from r total s = Some c ->
  exists pre s', s = pre ++ s'
                 /\ m r total s' [] (fun _ c' => Some c') = Some c.
Proof.
  induction s as [|x s IH]; cbn [exec_from]; intros H.
  - destruct (m r total [] [] _) eqn:E; [|discriminate].
    injection H as <-. exists [], []. split; [reflexivity | exact E].
  - destruct (m r total (x :: s) [] _) eqn:E.
    + injection H as <-. exists [], (x :: s). split; [reflexivity | exact E].
    + destruct (IH H) as (pre & s' & -> & Hm).
      exists (x :: pre), s'. now split.
Qed.

Lemma firstn_length_diff {A : Type} (a b : list A) :
  firstn (length (a ++ b) - length b) (a ++ b) = a.
Proof.
  replace (length (a ++ b) - length b)%nat with (length a + 0)%nat
    by (rewrite length_app; lia).
  rewrite firstn_app_2. cbn. apply app_nil_r.
Qed.

(** X7: what the comment-marker stage returns is the content of a marker
    that is in the text: the text reads [... <!-- file_path: X --> ...]
    for the returned [X], which is non-empty and has no line terminator
    in it. *)
Theorem marker_stage_sound (text x : jsstring) :
  match1 filePath_re text = Some x ->
  exists pre post,
    text = pre ++ marker_open ++ x ++ marker_close ++ post
    /\ forallb dot x = true
    /\ is_empty x = false.
Proof.
  unfold match1, exec. intros H.
  destruct (exec_from filePath_re (length text) text) as [c|] eqn:E;
    [|discriminate].
  apply exec_from_inv in E as (pre & s' & -> & Hm).
  rewrite m_filePath_re in Hm.
  destruct (startsWith s' marker_open) eqn:Eo; [|discriminate].
  apply startsWith_spec in Eo as [s1 ->]. cbv zeta in Hm.
  replace (skipn (length marker_open) (marker_open ++ s1)) with s1 in Hm
    by reflexivity.
  apply rep_lazy_inv in Hm as (a & b & -> & Ha & Hk).
  destruct (startsWith b marker_close) eqn:Ec; [|discriminate].
  apply startsWith_spec in Ec as [post Ec].
  injection Hk as <-. cbn [capture Nat.eqb] in H.
  rewrite firstn_length_diff in H. subst b.
  exists pre, post. destruct a as [|y a]; [discriminate H|].
  injection H as <-. repeat split. exact Ha.
Qed.

Lemma marker_stage_sound_witness :
  exists pre post,
    str "Veja <!-- file_path: videos/x.mp4 --> e mais"
    = pre ++ marker_open ++ str "videos/x.mp4" ++ marker_close ++ post
    /\ forallb dot (str "videos/x.mp4") = true
    /\ is_empty (str "videos/x.mp4") = false.
Proof.
  apply (marker_stage_sound
           (str "Veja <!-- file_path: videos/x.mp4 --> e mais")
           (str "videos/x.mp4")).
  vm_compute. reflexivity.
Defined.

Lemma match1_nonempty (re : regex) (text x : jsstring) :
  match1 re text = Some x -> is_empty x = false.
Proof.
  unfold match1. destruct (exec re text) as [c|]; [|discriminate].
  destruct (capture 1 c) as [[|y v]|]; try discriminate.
  now intros [= <-].
Qed.

Lemma first_match_nonempty (ps : list regex) (text x : jsstring) :
  first_match ps text = Some x -> is_empty x = false.
Proof.
  induction ps as [|re ps IH]; cbn [first_match]; [discriminate|].
  destruct (match1 re text) eqn:E; [|exact IH].
  intros [= <-]. now apply (match1_nonempty re text).
Qed.

Lemma extractFilePath_nonempty (data : AnalyzeResponse) (text x : jsstring) :
  extractFilePath data text = Some x -> is_empty x = false.
Proof.
  unfold extractFilePath.
  destruct (match1 filePath_re text) eqn:E1;
    [intros [= <-]; now apply (match1_nonempty _ _ _ E1)|].
  destruct (match1 fileLine_re text) eqn:E2;
    [intros [= <-]; now apply (match1_nonempty _ _ _ E2)|].
  destruct (first_match patterns text) eqn:E3;
    [intros [= <-]; now apply (first_match_nonempty _ _ _ E3)|].
  destruct (file_path data) as [[|c v]|];
    try (intros [= <-]; reflexivity);
    (destruct (primary_media_type data); [|discriminate];
     cbv zeta; destruct (lookup _ _) as [[|c' v']|]; try discriminate;
     intros [= <-]; reflexivity).
Qed.

Lemma extractFilePath_declared (data : AnalyzeResponse) (text : jsstring)
  (t : PrimaryMediaType) :
  primary_media_type data = Some t -> is_mixed t = false ->
  exists x, extractFilePath data text = Some x.
Proof.
  intros Ht Hm. unfold extractFilePath.
  destruct (match1 filePath_re text); [eauto|].
  destruct (match1 fileLine_re text); [eauto|].
  destruct (first_match patterns text); [eauto|].
  destruct (file_path data) as [[|c v]|]; eauto;
    rewrite Ht; cbv zeta; rewrite default_file_of;
    destruct t; try discriminate Hm; vm_compute; eauto.
Qed.

(** X8: the extractor never returns the empty string, and when the
    response declares a primary media type other than ['mixed'] it never
    returns [null]; [renderFileContent] then always renders the extracted
    path, so the defaults of its own [defaultMedia] table are never
    used. *)
Theorem declared_type_always_has_file
  (env : option jsstring) (data : AnalyzeResponse) :
  (forall text x, extractFilePath data text = Some x -> is_empty x = false)
  /\ (forall t, primary_media_type data = Some t -> is_mixed t = false ->
      exists x,
        extractFilePath data (response data) = Some x
        /\ renderFileContent env data = renderContentByType env x).
Proof.
  split; [apply extractFilePath_nonempty|].
  intros t Ht Hm.
  destruct (extractFilePath_declared data (response data) t Ht Hm) as [x Hx].
  exists x. split; [exact Hx|].
  pose proof (extractFilePath_nonempty _ _ _ Hx) as Hne.
  unfold renderFileContent. cbv zeta. rewrite Ht, Hm, Hx.
  destruct x; [discriminate Hne | reflexivity].
Qed.

(** X9: the modal is always offered the text and exercises formats, as
    its last two entries; video, audio and image are offered exactly when
    the response has such content; no format is offered twice and
    ['mixed'] is never offered. *)
Theorem getAvailableFormats_shape (data : AnalyzeResponse) :
  NoDup (getAvailableFormats data)
  /\ (exists media, getAvailableFormats data
                    = media ++ [fmt_text; fmt_exercises])
  /\ (In fmt_video (getAvailableFormats data)
      <-> flag (has_video_content data) = true)
  /\ (In fmt_audio (getAvailableFormats data)
      <-> flag (has_audio_content data) = true)
  /\ (In fmt_image (getAvailableFormats data)
      <-> flag (has_image_content data) = true)
  /\ ~ In fmt_mixed (getAvailableFormats data).
Proof.
  unfold getAvailableFormats.
  destruct (flag (has_video_content data)),
           (flag (has_audio_content data)),
           (flag (has_image_content data)); cbn.
  all: split;
    [repeat constructor; cbn; intuition discriminate|].
  all: split;
    [match goal with
     | |- exists media, ?l = _ =>
         exists (removelast (removelast l)); reflexivity
     end|].
  all: repeat split; intros; try discriminate; intuition discriminate.
Qed.

(** X10: when the response declares no primary media type, or
    ['mixed'], the format selected at first is one of the formats on
    offer. *)
Theorem initialMediaFormat_available (data : AnalyzeResponse) :
  match primary_media_type data with
  | Some t => is_mixed t
  | None => true
  end = true ->
  In (initialMediaFormat data) (getAvailableFormats data).
Proof.
  intros H. unfold initialMediaFormat, getAvailableFormats.
  assert (E : match primary_media_type data with
              | Some t => if negb (is_mixed t) then as_MediaFormat t
                          else (if flag (has_video_content data) then fmt_video
                                else if flag (has_audio_content data) then fmt_audio
                                else if flag (has_image_content data) then fmt_image
                                else fmt_text)
              | None => (if flag (has_video_content data) then fmt_video
                         else if flag (has_audio_content data) then fmt_audio
                         else if flag (has_image_content data) then fmt_image
                         else fmt_text)
              end
              = (if flag (has_video_content data) then fmt_video
                 else if flag (has_audio_content data) then fmt_audio
                 else if flag (has_image_content data) then fmt_image
                 else fmt_text)).
  { destruct (primary_media_type data) as [t|]; [|reflexivity].
    cbn in H. now rewrite H. }
  cbv zeta. rewrite E.
  destruct (flag (has_video_content data)),
           (flag (has_audio_content data)),
           (flag (has_image_content data)); cbn; tauto.
Qed.

Lemma initialMediaFormat_available_witness :
  In (initialMediaFormat
        {| response := []; user_id := str "u1"; query_id := None;
           has_video_content := None; has_image_content := Some true;
           has_audio_content := Some true; file_path := None;
           primary_media_type := Some pm_mixed |})
     (getAvailableFormats
        {| response := []; user_id := str "u1"; query_id := None;
           has_video_content := None; has_image_content := Some true;
           has_audio_content := Some true; file_path := None;
           primary_media_type := Some pm_mixed |}).
Proof.
  apply (initialMediaFormat_available
           {| response := []; user_id := str "u1"; query_id := None;
              has_video_content := None; has_image_content := Some true;
              has_audio_content := Some true; file_path := None;
              primary_media_type := Some pm_mixed |}).
  reflexivity.
Defined.

(** The four sample blocks shown for a mixed response. *)
Definition four_defaults (env : option jsstring) : list widget :=
  [ video_player
      (apiUrl env ++ root_marker ++ str "videos/Dica do professor.mp4");
    audio_player
      (apiUrl env ++ root_marker ++ str "audio/Dica do professor.mp3");
    image_view
      (apiUrl env ++ root_marker ++ str "images/Infografico-1.jpg");
    exercises_link
      (apiUrl env ++ root_marker ++ str "text/Exercícios.txt") ].

Lemma render_block_media_dir (env : option jsstring)
  (make : jsstring -> widget) (p : jsstring) :
  hasMediaDir p = true -> includes p root_marker = false ->
  render_block env make p = Some [make (apiUrl env ++ root_marker ++ p)].
Proof.
  intros Hd Hi. unfold render_block.
  rewrite (validateMediaUrl_media_dir env p Hd Hi).
  destruct p; [discriminate Hd | reflexivity].
Qed.

Lemma render_block_small (env : option jsstring)
  (make : jsstring -> widget) (p : jsstring) :
  exists ws, render_block env make p = Some ws /\ (length ws <= 1)%nat.
Proof.
  unfold render_block. destruct (is_empty p).
  - exists []. split; [reflexivity | cbn; lia].
  - destruct (validateMediaUrl_defined env p) as [u ->].
    eexists; split; [reflexivity | cbn; lia].
Qed.

Lemma renderContentByType_small (env : option jsstring) (p : jsstring) :
  exists ws, renderContentByType env p = Some ws /\ (length ws <= 1)%nat.
Proof.
  unfold renderContentByType.
  destruct (getFileType p); try apply render_block_small.
  exists []. split; [reflexivity | cbn; lia].
Qed.

Lemma mixed_fragment (env : option jsstring) (last : option (list widget))
  (extra : list widget) :
  last = Some extra ->
  fragment
    [ renderVideoContent env (str "videos/Dica do professor.mp4");
      renderAudioContent env (str "audio/Dica do professor.mp3");
      renderImageContent env (str "images/Infografico-1.jpg");
      renderExercisesContent env (str "text/Exercícios.txt");
      last ]
  = Some (four_defaults env ++ extra).
Proof.
  intros ->.
  unfold renderVideoContent, renderAudioContent, renderImageContent,
    renderExercisesContent.
  rewrite !render_block_media_dir by (vm_compute; reflexivity).
  cbn [fragment app]. rewrite app_nil_r. reflexivity.
Qed.

(** X11: for a response that declares no primary media type, or
    ['mixed'], the four sample blocks (video, audio, image, exercises)
    are always rendered, in that order and whatever the text says,
    followed by at most one block for the file found in the text. *)
Theorem mixed_shows_all_defaults
  (env : option jsstring) (data : AnalyzeResponse) :
  match primary_media_type data with
  | Some t => is_mixed t
  | None => true
  end = true ->
  exists extra,
    renderFileContent env data = Some (four_defaults env ++ extra)
    /\ (length extra <= 1)%nat.
Proof.
  intros H. unfold renderFileContent. cbv zeta. rewrite H.
  destruct (extractFilePath data (response data)) as [[|c p]|].
  - exists []. split; [now apply mixed_fragment | cbn; lia].
  - destruct (renderContentByType_small env (c :: p)) as (ws & Hws & Hlen).
    exists ws. split; [now apply mixed_fragment | exact Hlen].
  - exists []. split; [now apply mixed_fragment | cbn; lia].
Qed.

Lemma mixed_shows_all_defaults_witness :
  exists extra,
    renderFileContent None
      (typed_response (str "Arquivo: audio/Aula.mp3") pm_mixed)
    = Some (four_defaults None ++ extra)
    /\ (length extra <= 1)%nat.
Proof.
  apply (mixed_shows_all_defaults None
           (typed_response (str "Arquivo: audio/Aula.mp3") pm_mixed)).
  reflexivity.
Defined.

Lemma validateMediaUrl_bare_video (env : option jsstring) (f : jsstring) :
  ~ In 47 f ->
  arr_includes video_exts (extension f) = true ->
  validateMediaUrl env f
  = Some (apiUrl env ++ str "/processed_data/" ++ str "videos/" ++ f).
Proof.
  intros Hbare Hext. unfold validateMediaUrl.
  destruct f as [|c f]; [discriminate Hext|].
  cbn [is_empty]. unfold is_absolute_url.
  rewrite !bare_not_startsWith by (assumption || (cbn; tauto)).
  cbn [orb]. rewrite bare_cleanPath_of by assumption. cbv zeta.
  rewrite bare_hasMediaDir by assumption. cbn [negb].
  unfold infer_subdir. rewrite Hext. reflexivity.
Qed.

(** X12: from the text to the player.  When the first marker of the
    response text names a bare video file [f] (on one line, without
    [ -->] in it), the response is rendered with a video player on
    [<apiUrl>/processed_data/videos/f]; it is the only media block when
    a primary media type other than ['mixed'] is declared, and it comes
    after the four sample blocks otherwise. *)
Theorem marker_video_rendered
  (env : option jsstring) (data : AnalyzeResponse) (pre f post : jsstring) :
  response data = pre ++ marker_open ++ f ++ marker_close ++ post ->
  forallb dot f = true ->
  indexOf (f ++ marker_close) marker_close = Some (length f) ->
  indexOf (pre ++ marker_open ++ f ++ marker_close ++ post) marker_open
    = Some (length pre) ->
  ~ In 47 f ->
  arr_includes video_exts (extension f) = true ->
  renderFileContent env data
  = Some ((if match primary_media_type data with
              | Some t => is_mixed t
              | None => true
              end
           then four_defaults env else [])
            ++ [video_player
                  (apiUrl env ++ str "/processed_data/" ++ str "videos/" ++ f)]).
Proof.
  intros Htext Hdot Hclose Hopen Hbare Hext.
  assert (Hne : f <> []) by (intros ->; discriminate Hext).
  assert (Hx : extractFilePath data (response data) = Some f).
  { rewrite Htext. unfold extractFilePath.
    now rewrite match1_filePath_re. }
  assert (Hr : renderContentByType env f
               = Some [video_player
                         (apiUrl env ++ str "/processed_data/"
                            ++ str "videos/" ++ f)]).
  { unfold renderContentByType, getFileType.
    destruct f as [|c f']; [congruence|]. cbn [is_empty]. cbv zeta.
    rewrite Hext. cbn [orb].
    unfold renderVideoContent, render_block. cbn [is_empty].
    now rewrite validateMediaUrl_bare_video. }
  unfold renderFileContent. cbv zeta. rewrite Hx.
  destruct f as [|c f']; [congruence|].
  destruct (match primary_media_type data with
            | Some t => is_mixed t
            | None => true
            end).
  - now apply mixed_fragment.
  - exact Hr.
Qed.

Lemma marker_video_rendered_witness :
  renderFileContent None
    (typed_response
       (str "Assista. " ++ marker_open ++ str "Dica do professor.mp4"
          ++ marker_close ++ []) pm_video)
  = Some ([] ++ [video_player
                   (apiUrl None ++ str "/processed_data/" ++ str "videos/"
                      ++ str "Dica do professor.mp4")]).
Proof.
  apply (marker_video_rendered None
           (typed_response
              (str "Assista. " ++ marker_open ++ str "Dica do professor.mp4"
                 ++ marker_close ++ []) pm_video)
           (str "Assista. ") (str "Dica do professor.mp4") []).
  - reflexivity.
  - vm_compute; reflexivity.
  - vm_compute; reflexivity.
  - vm_compute; reflexivity.
  - vm_compute. intros H. repeat (destruct H as [H|H]; [discriminate H|]).
    exact H.
  - vm_compute; reflexivity.
Defined.

(** *** Feedback *)

Section FeedbackOnce.

Variable data : AnalyzeResponse.
Variable parent : feedback -> feedback_prop -> feedback_prop.
(** A parent that passes the status marks it submitted when it is told
    of a feedback. *)
Hypothesis parent_marks :
  forall fb p, p <> fp_undefined -> parent fb p = fp_submitted.

Definition feedback_inv (w : feedback_world) : Prop :=
  isSubmittingFeedback w = false
  /\ (notified w = []
      \/ (length (notified w) = 1%nat /\ feedbackSubmitted w = true)).

Lemma handleFeedbackSubmit_inv w fb accepted :
  feedback_inv w -> feedback_inv (handleFeedbackSubmit data parent w fb accepted).
Proof.
  intros [Hs Hn]. unfold handleFeedbackSubmit.
  destruct (feedbackSubmitted w) eqn:E; cbn [orb].
  { split; [exact Hs|]. destruct Hn as [Hn | [Hn _]]; [now left|].
    right. now split. }
  rewrite Hs. cbv zeta.
  destruct Hn as [Hn | [_ Hn]]; [|discriminate Hn].
  destruct accepted; split; cbn; auto.
  right. rewrite Hn. split; [reflexivity|].
  unfold feedbackSubmitted. cbn.
  destruct (feedbackStatus w) eqn:Ef; cbn.
  - apply orb_true_r.
  - rewrite parent_marks by discriminate. reflexivity.
  - rewrite parent_marks by discriminate. reflexivity.
  - rewrite parent_marks by discriminate. reflexivity.
Qed.

Lemma handleFeedbackSubmit_submitted w fb accepted :
  feedbackSubmitted w = true ->
  handleFeedbackSubmit data parent w fb accepted = w.
Proof. intros H. unfold handleFeedbackSubmit. rewrite H. reflexivity. Qed.

Lemma feedback_run_inv status presses :
  feedback_inv (feedback_run data parent status presses).
Proof.
  unfold feedback_run.
  assert (H0 : feedback_inv (feedback_start status))
    by (split; [reflexivity | now left]).
  revert H0. generalize (feedback_start status).
  induction presses as [|[fb ok] presses IH]; intros w Hw; [exact Hw|].
  cbn [fold_left]. apply IH. now apply handleFeedbackSubmit_inv.
Qed.

(** X13: a response's feedback reaches the parent at most once, however
    often the two buttons are pressed and whatever the fate of the
    requests; once it has, further presses send nothing.  This holds
    when the status is kept by the component itself (no [feedbackStatus]
    prop) and when the parent keeps it and marks it submitted. *)
Theorem feedback_notified_once
  (status : feedback_prop) (presses : list (feedback * bool)) :
  let w := feedback_run data parent status presses in
  (length (notified w) <= 1)%nat
  /\ (notified w <> [] ->
      forall fb accepted, handleFeedbackSubmit data parent w fb accepted = w).
Proof.
  cbv zeta. destruct (feedback_run_inv status presses) as [Hs Hn].
  split.
  - destruct Hn as [-> | [-> _]]; cbn; lia.
  - intros Hne fb accepted. destruct Hn as [Hn | [_ Hn]]; [congruence|].
    now apply handleFeedbackSubmit_submitted.
Qed.

End FeedbackOnce.

Lemma feedback_notified_once_witness :
  let w := feedback_run (text_only_response []) (fun _ _ => fp_submitted)
             fp_pending [(positive, false); (negative, true); (positive, true)] in
  (length (notified w) <= 1)%nat
  /\ (notified w <> [] ->
      forall fb accepted,
        handleFeedbackSubmit (text_only_response []) (fun _ _ => fp_submitted)
          w fb accepted = w).
Proof.
  apply (feedback_notified_once (text_only_response [])
           (fun _ _ => fp_submitted) (fun _ _ _ => eq_refl)).
Defined.

End AdaptiveResponseMore.

(** ** More properties of [ExerciseContent.tsx] *)

Module ExerciseContentMore.
Import JS JSFacts Regex ExerciseContent ExerciseContentSpec ExerciseAnswers.

(** An exercise worth returning: a question, and options only if there
    is at least one. *)
Definition well_formed (e : Exercise) : Prop :=
  is_empty (question e) = false /\ options e <> Some [].

Definition parser_wf (st : parser) : Prop :=
  Forall well_formed (exercises st)
  /\ (collectingOptions st = true -> currentOptions st <> [])
  /\ (forall e, currentExercise st = Some e -> options e = None).

Lemma save_current_wf st :
  parser_wf st ->
  Forall well_formed (exercises (save_current st))
  /\ (collectingOptions (save_current st) = true ->
      currentOptions (save_current st) <> []).
Proof.
  intros (Hex & Hco & Hcur). unfold save_current.
  destruct (currentExercise st) as [e|] eqn:Ec; [|now split].
  specialize (Hcur e eq_refl).
  destruct (question e) as [|c q] eqn:Eq; cbn [truthy is_empty negb];
    [now split|].
  destruct (collectingOptions st) eqn:Eo; cbn [exercises collectingOptions
                                                 currentOptions].
  - split; [|discriminate].
    apply Forall_app; split; [exact Hex|].
    constructor; [|constructor]. split; cbn; [now rewrite Eq|].
    intros [= H]. now apply Hco.
  - split; [|intros H; discriminate H].
    apply Forall_app; split; [exact Hex|].
    constructor; [|constructor]. split; [now rewrite Eq|].
    rewrite Hcur. discriminate.
Qed.

Lemma parse_line_wf st raw : parser_wf st -> parser_wf (parse_line st raw).
Proof.
  intros Hwf. pose proof Hwf as (Hex & Hco & Hcur).
  unfold parse_line. cbv zeta.
  destruct (is_empty (trim raw)); [exact Hwf|].
  destruct (exec question_re (trim raw)) as [qm|].
  - destruct (save_current_wf st Hwf) as [H1 H2].
    repeat split; cbn; try assumption. now intros e [= <-].
  - destruct (currentExercise st) as [e|] eqn:Ec; [|exact Hwf].
    specialize (Hcur e eq_refl).
    destruct (exec option_re (trim raw)).
    { repeat split; cbn; try assumption.
      - intros _ H. now apply app_eq_nil in H as [_ H].
      - now intros e' [= <-]. }
    destruct (exec answer_re (trim raw)).
    { repeat split; cbn; try assumption. now intros e' [= <-]. }
    destruct (exec explanation_re (trim raw)).
    { repeat split; cbn; try assumption. now intros e' [= <-]. }
    destruct (collectingOptions st) eqn:Eo; cbn [negb]; [exact Hwf|].
    repeat split; cbn; try assumption.
    now intros e' [= <-].
Qed.

Lemma fold_parse_line_wf lines st :
  parser_wf st -> parser_wf (fold_left parse_line lines st).
Proof.
  revert st; induction lines as [|l ls IH]; intros st H; [exact H|].
  cbn [fold_left]. apply IH. now apply parse_line_wf.
Qed.

Lemma parse_lines_wf (lines : list jsstring) :
  Forall well_formed (parse_lines lines).
Proof.
  assert (H0 : parser_wf parser_init).
  { repeat split; cbn; try constructor; discriminate. }
  pose proof (fold_parse_line_wf lines _ H0) as (Hex & Hco & Hcur).
  unfold parse_lines. cbv zeta.
  destruct (currentExercise _) as [e|]; [|exact Hex].
  specialize (Hcur e eq_refl).
  destruct (question e) as [|c q] eqn:Eq; cbn [truthy is_empty negb];
    [exact Hex|].
  apply Forall_app; split; [exact Hex|].
  constructor; [|constructor].
  destruct (collectingOptions _) eqn:Eo; split; cbn; try (now rewrite Eq).
  - intros [= H]. now apply Hco.
  - rewrite Hcur. discriminate.
Qed.

(** X14: every exercise the text parser returns has a non-empty
    question, and if it has an [options] array the array is not
    empty. *)
Theorem parsed_exercises_well_formed (text : jsstring) (e : Exercise) :
  In e (parseTextExercises text) ->
  is_empty (question e) = false /\ options e <> Some [].
Proof.
  intros H. pose proof (parse_lines_wf (split text [10])) as Hwf.
  rewrite Forall_forall in Hwf. now apply Hwf.
Qed.

Lemma parsed_exercises_well_formed_witness :
  is_empty (question {| question := str "Segunda"; options := None;
                        answer := None; explanation := None |}) = false
  /\ options {| question := str "Segunda"; options := None;
                answer := None; explanation := None |} <> Some [].
Proof.
  apply (parsed_exercises_well_formed
           (str "1. Primeira" ++ [10] ++ str "a) x" ++ [10] ++ str "2) Segunda")).
  vm_compute. right. left. reflexivity.
Defined.

Lemma parse_line_blank st raw :
  is_empty (trim raw) = true -> parse_line st raw = st.
Proof. intros H. unfold parse_line. cbv zeta. now rewrite H. Qed.

Lemma parse_line_preamble raw :
  question_text raw = None -> parse_line parser_init raw = parser_init.
Proof.
  unfold question_text, parse_line. cbv zeta.
  destruct (is_empty (trim raw)); [reflexivity|].
  destruct (exec question_re (trim raw)); [discriminate | reflexivity].
Qed.

Lemma fold_parse_line_nonblank lines st :
  fold_left parse_line
    (filter (fun l => negb (is_empty (trim l))) lines) st
  = fold_left parse_line lines st.
Proof.
  revert st; induction lines as [|l ls IH]; intros st; [reflexivity|].
  cbn [filter fold_left].
  destruct (is_empty (trim l)) eqn:E; cbn [negb].
  - now rewrite parse_line_blank.
  - cbn [fold_left]. apply IH.
Qed.

(** X15: what comes before the first numbered line, and blank lines
    anywhere, do not change the result of the text parser. *)
Theorem preamble_and_blank_lines_ignored (pre lines : list jsstring) :
  Forall (fun l => question_text l = None) pre ->
  parse_lines (pre ++ lines)
  = parse_lines (filter (fun l => negb (is_empty (trim l))) lines).
Proof.
  intros Hpre. unfold parse_lines. cbv zeta.
  rewrite fold_left_app, fold_parse_line_nonblank.
  assert (E : fold_left parse_line pre parser_init = parser_init).
  { induction Hpre as [|l pre Hl _ IH]; [reflexivity|].
    cbn [fold_left]. now rewrite parse_line_preamble. }
  now rewrite E.
Qed.

Lemma preamble_and_blank_lines_ignored_witness :
  parse_lines ([str "Lista de exercícios"; str "a) solto"]
                 ++ [str "1. Um"; []; str "  "; str "Resposta: x"])
  = parse_lines
      (filter (fun l => negb (is_empty (trim l)))
         [str "1. Um"; []; str "  "; str "Resposta: x"]).
Proof.
  apply (preamble_and_blank_lines_ignored
           [str "Lista de exercícios"; str "a) solto"]
           [str "1. Um"; []; str "  "; str "Resposta: x"]).
  repeat constructor.
Defined.

Lemma in_order_nil_l es : in_order [] es -> es = [].
Proof. intros H; now inversion H. Qed.

Lemma in_order_some qs es q :
  in_order qs es -> In q qs -> q <> [] -> es <> [].
Proof.
  intros H; induction H; intros Hin Hq.
  - contradiction.
  - discriminate.
  - destruct Hin as [<- | Hin]; [congruence | now apply IHin_order].
Qed.

(** X16: when the text parser is what decides (the JSON block threw),
    the "no exercises" error is what a content without any numbered line
    gets, and a content with a numbered line whose question text is not
    empty never gets it. *)
Theorem no_exercises_error_iff_no_numbered_line (content : jsstring) :
  (question_texts (split content [10]) = [] ->
   parseTextExercises content = []
   /\ text_fallback content = failed no_exercises_error)
  /\ (forall q, In q (question_texts (split content [10])) ->
      is_empty q = false ->
      parseTextExercises content <> []
      /\ error (text_fallback content) = None
      /\ shown (text_fallback content)
         = map FromText (parseTextExercises content)).
Proof.
  pose proof (parse_lines_in_order (split content [10])) as Hord.
  fold (parseTextExercises content) in Hord. split.
  - intros E. rewrite E in Hord. apply in_order_nil_l in Hord.
    unfold text_fallback. now rewrite Hord.
  - intros q Hin Hq.
    assert (Hne : parseTextExercises content <> []).
    { apply (in_order_some _ _ q Hord Hin). intros ->; discriminate. }
    unfold text_fallback.
    destruct (parseTextExercises content); [congruence|].
    repeat split. discriminate.
Qed.

(** X17: [fetchExercises] always leaves the component in a settled
    state: it never throws, loading is over, and an error message and
    exercises are never there together. *)
Theorem fetchExercises_settles
  (env : option jsstring) (fetch : jsstring -> fetch_outcome)
  (JSON_parse : jsstring -> option json) (filePath : jsstring) :
  exists v,
    fetchExercises env fetch JSON_parse filePath = Some v
    /\ loading v = false
    /\ (error v <> None -> shown v = [])
    /\ (shown v <> [] -> error v = None).
Proof.
  unfold fetchExercises.
  destruct (MediaUtilsSpec.validateMediaUrl_defined env filePath) as [u ->].
  destruct (fetch u) as [message | ok status content].
  - eexists; split; [reflexivity|]. cbn. repeat split; congruence.
  - destruct ok; cbn [negb].
    + eexists; split; [reflexivity|]. unfold exercises_of_content.
      destruct (json_exercises (JSON_parse content)).
      * cbn. repeat split; congruence.
      * unfold text_fallback. destruct (parseTextExercises content);
          cbn; repeat split; congruence.
    + eexists; split; [reflexivity|]. cbn. repeat split; congruence.
Qed.

(** X28: the errors a response can end in.  When the server answers,
    the component ends without error, with the HTTP error of the status,
    or with the error of the text parser; the error of line 68 for a JSON
    value of an unknown shape is never what the user sees. *)
Theorem unrecognized_format_error_never_shown
  (env : option jsstring) (fetch : jsstring -> fetch_outcome)
  (JSON_parse : jsstring -> option json)
  (filePath url content : jsstring) (ok : bool) (status : N) :
  MediaUtils.validateMediaUrl env filePath = Some url ->
  fetch url = Response ok status content ->
  exists v,
    fetchExercises env fetch JSON_parse filePath = Some v
    /\ (error v = None
        \/ error v = Some (http_error status)
        \/ error v = Some no_exercises_error)
    /\ error v <> Some unrecognized_format_error.
Proof.
  intros Hurl Hfetch. unfold fetchExercises. rewrite Hurl, Hfetch.
  assert (Hhttp : http_error status <> unrecognized_format_error)
    by (unfold http_error, unrecognized_format_error; cbn; discriminate).
  assert (Htext : no_exercises_error <> unrecognized_format_error)
    by (vm_compute; discriminate).
  destruct ok; cbn [negb].
  - eexists; split; [reflexivity|]. unfold exercises_of_content.
    destruct (json_exercises (JSON_parse content)).
    + split; [now left | discriminate].
    + unfold text_fallback. destruct (parseTextExercises content).
      * split; [right; right; reflexivity | cbn; congruence].
      * split; [now left | discriminate].
  - eexists; split; [reflexivity|].
    split; [right; left; reflexivity | cbn; congruence].
Qed.

Lemma unrecognized_format_error_never_shown_witness :
  exists v,
    fetchExercises None (fun _ => Response true 200 (str "{}"))
      (fun _ => Some (JObj [])) (str "Exercicios.txt") = Some v
    /\ (error v = None
        \/ error v = Some (http_error 200)
        \/ error v = Some no_exercises_error)
    /\ error v <> Some unrecognized_format_error.
Proof.
  apply (unrecognized_format_error_never_shown None
           (fun _ => Response true 200 (str "{}"))
           (fun _ => Some (JObj [])) (str "Exercicios.txt")
           (str "http://localhost:8000/processed_data/text/Exercicios.txt")
           (str "{}") true 200);
    vm_compute; reflexivity.
Defined.

(** *** Answers *)

Definition answers_inv (s : answers) : Prop :=
  showResults s = true -> selectedAnswers s <> [].

Lemma assign_nonempty i a o : assign i a o <> [].
Proof. destruct o as [|[k v] o]; cbn; [|destruct (Nat.eqb k i)]; discriminate. Qed.

Lemma answer_step_inv s ev : answers_inv s -> answers_inv (answer_step s ev).
Proof.
  unfold answers_inv. intros H. destruct ev; cbn [answer_step].
  - destruct (showResults s) eqn:E; [now rewrite E|].
    cbn. intros _. apply assign_nonempty.
  - destruct (showResults s) eqn:E; cbn [negb andb]; [now rewrite E|].
    destruct (selectedAnswers s) eqn:Es; cbn; [now rewrite E|].
    intros _. rewrite Es. discriminate.
  - destruct (showResults s) eqn:E; [cbn; discriminate | now rewrite E].
Qed.

Lemma answer_run_inv trace : answers_inv (answer_run trace).
Proof.
  unfold answer_run.
  assert (H0 : answers_inv answers_init) by (intros H; discriminate H).
  revert H0. generalize answers_init.
  induction trace as [|ev trace IH]; intros s H; [exact H|].
  cbn [fold_left]. apply IH. now apply answer_step_inv.
Qed.

Lemma chosen_assign i a o : chosen i (assign i a o) = Some a.
Proof.
  induction o as [|[k v] o IH]; cbn.
  - now rewrite Nat.eqb_refl.
  - destruct (Nat.eqb k i) eqn:E; cbn; [now rewrite Nat.eqb_refl|].
    now rewrite E.
Qed.

Lemma chosen_assign_other i j a o :
  i <> j -> chosen j (assign i a o) = chosen j o.
Proof.
  intros Hij. induction o as [|[k v] o IH]; cbn.
  - apply Nat.eqb_neq in Hij. now rewrite Hij.
  - destruct (Nat.eqb k i) eqn:E; cbn.
    + apply Nat.eqb_eq in E; subst k.
      apply Nat.eqb_neq in Hij. now rewrite Hij.
    + destruct (Nat.eqb k j); [reflexivity | exact IH].
Qed.

(** X18: the answers of the exercises.  Results are only ever shown
    when at least one answer is selected; while they are shown the
    selection cannot change; picking an option records it for that
    exercise and leaves the other exercises alone; and "Tentar
    novamente" brings back the initial state. *)
Theorem answers_flow (trace : list answer_event) :
  let s := answer_run trace in
  (showResults s = true -> selectedAnswers s <> [])
  /\ (showResults s = true -> forall i a, answer_step s (Pick i a) = s)
  /\ (showResults s = false -> forall i a j,
        chosen j (selectedAnswers (answer_step s (Pick i a)))
        = if Nat.eqb i j then Some a else chosen j (selectedAnswers s))
  /\ (showResults s = true -> answer_step s TryAgain = answers_init).
Proof.
  cbv zeta. split; [apply answer_run_inv|]. split; [|split].
  - intros H i a. cbn. now rewrite H.
  - intros H i a j. cbn. rewrite H. cbn.
    destruct (Nat.eqb i j) eqn:E.
    + apply Nat.eqb_eq in E; subst j. apply chosen_assign.
    + apply Nat.eqb_neq in E. now apply chosen_assign_other.
  - intros H. cbn. now rewrite H.
Qed.

End ExerciseContentMore.

(** ** More properties of [InteractivePrompt.tsx] *)

Module InteractivePromptMore.
Import JS JSFacts InteractivePrompt InteractivePromptSpec.

(** *** The level *)

(** The answers [updateUserLevel] counts. *)
Definition levelQuestions (qs : list Question) : list Question :=
  filter (fun q => truthy (or_empty (userResponse q))
                   && is_level (or_empty (userResponse q))) qs.

Lemma levelQuestions_counted (qs : list Question) :
  levelQuestions qs <> [] ->
  (0 < count_level (str "iniciante") (levelQuestions qs)
       + count_level (str "intermediário") (levelQuestions qs)
       + count_level (str "avançado") (levelQuestions qs))%nat.
Proof.
  intros Hne. destruct (levelQuestions qs) as [|q lq] eqn:E; [congruence|].
  assert (Hin : In q (levelQuestions qs)) by (rewrite E; now left).
  apply filter_In in Hin as [_ Hq].
  apply andb_true_iff in Hq as [_ Hq]. unfold is_level in Hq.
  unfold count_level. cbn [filter].
  apply orb_true_iff in Hq as [Hq|Hq];
    [apply orb_true_iff in Hq as [Hq|Hq]|]; rewrite Hq; cbn [length]; lia.
Qed.

(** X19: [updateUserLevel] leaves the level alone when no question has
    a level for an answer; otherwise it sets the level that has the most
    answers, and of two levels with the same number of answers the one
    that comes first in iniciante, intermediário, avançado. *)
Theorem updateUserLevel_plurality (st : state) (qs : list Question) :
  let i := count_level (str "iniciante") (levelQuestions qs) in
  let m := count_level (str "intermediário") (levelQuestions qs) in
  let a := count_level (str "avançado") (levelQuestions qs) in
  (levelQuestions qs = [] -> updateUserLevel st qs = st)
  /\ (levelQuestions qs <> [] ->
      updateUserLevel st qs
      = set_userLevel st
          (if Nat.leb m i && Nat.leb a i then str "iniciante"
           else if Nat.leb a m then str "intermediário"
           else str "avançado")).
Proof.
  cbv zeta. split.
  - intros E. unfold updateUserLevel. cbv zeta.
    unfold levelQuestions in E. now rewrite E.
  - intros Hne. pose proof (levelQuestions_counted qs Hne) as Hpos.
    unfold updateUserLevel. cbv zeta.
    change (filter _ qs) with (levelQuestions qs).
    destruct (levelQuestions qs) as [|q lq] eqn:E; [congruence|].
    cbn [fold_left fst snd].
    set (i := count_level (str "iniciante") (q :: lq)) in *.
    set (m := count_level (str "intermediário") (q :: lq)) in *.
    set (a := count_level (str "avançado") (q :: lq)) in *.
    destruct (Nat.ltb_spec 0 i) as [Hi|Hi]; cbn [fst snd];
      match goal with
      | |- context [Nat.ltb ?x m] => destruct (Nat.ltb_spec x m)
      end; cbn [fst snd];
      match goal with
      | |- context [Nat.ltb ?x a] => destruct (Nat.ltb_spec x a)
      end; cbn [fst snd];
      destruct (Nat.leb_spec m i) as [Hm|Hm];
      destruct (Nat.leb_spec a i) as [Ha|Ha];
      destruct (Nat.leb_spec a m) as [Ham|Ham]; cbn [andb];
      try reflexivity; exfalso; lia.
Qed.


(** The closed form of the level chosen for a list of answers. *)
Definition level_of (answers : list jsstring) : jsstring :=
  let n l := length (filter (fun a => eqb a l) answers) in
  if Nat.leb (n (str "intermediário")) (n (str "iniciante"))
     && Nat.leb (n (str "avançado")) (n (str "iniciante"))
  then str "iniciante"
  else if Nat.leb (n (str "avançado")) (n (str "intermediário"))
       then str "intermediário"
       else str "avançado".

Lemma is_level_cases (a : jsstring) :
  is_level a = true ->
  a = str "iniciante" \/ a = str "intermediário" \/ a = str "avançado".
Proof.
  unfold is_level. intros H.
  apply orb_true_iff in H as [H|H]; [apply orb_true_iff in H as [H|H]|];
    apply MediaUtilsMore.eqb_eq in H; auto.
Qed.

(** X20: the five topic questions.  Whatever levels are chosen for the
    five topics, the gaps are then exactly the topics answered
    "iniciante", in the order of the topic list, and the level is the
    one with the most answers (the earlier one on a tie). *)
Theorem topic_answers_decide_gaps_and_level
  (c : N) (u : jsstring) (cb : bool)
  (analyzeQuery : AnalyzeRequest -> option jsstring)
  (answers : list jsstring) :
  length answers = length topics ->
  Forall (fun a => is_level a = true) answers ->
  let w := run {| initialUserId := Some (c :: u); onComplete := cb |}
             analyzeQuery (flat_map answer_with answers) in
  knowledgeGaps (ui w)
  = map fst (filter (fun ta => eqb (snd ta) (str "iniciante"))
               (combine topics answers))
  /\ userLevel (ui w) = level_of answers
  /\ calls w = [].
Proof.
  intros Hlen Hall.
  destruct answers as [|a1 [|a2 [|a3 [|a4 [|a5 [|a6 rest]]]]]];
    try discriminate Hlen.
  repeat match goal with
         | H : Forall _ (_ :: _) |- _ =>
             let Ha := fresh "Ha" in
             apply Forall_cons_iff in H as [Ha H];
             apply is_level_cases in Ha
         end.
  clear Hlen Hall.
  destruct Ha as [->|[->| ->]]; destruct Ha0 as [->|[->| ->]];
    destruct Ha1 as [->|[->| ->]]; destruct Ha2 as [->|[->| ->]];
    destruct Ha3 as [->|[->| ->]];
    vm_compute; repeat split.
Qed.

Lemma topic_answers_decide_gaps_and_level_witness :
  let w := run {| initialUserId := Some (117 :: str "1"); onComplete := true |}
             sample_service
             (flat_map answer_with
                [str "iniciante"; str "avançado"; str "iniciante";
                 str "intermediário"; str "avançado"]) in
  knowledgeGaps (ui w)
  = map fst (filter (fun ta => eqb (snd ta) (str "iniciante"))
               (combine topics
                  [str "iniciante"; str "avançado"; str "iniciante";
                   str "intermediário"; str "avançado"]))
  /\ userLevel (ui w)
     = level_of [str "iniciante"; str "avançado"; str "iniciante";
                 str "intermediário"; str "avançado"]
  /\ calls w = [].
Proof.
  apply (topic_answers_decide_gaps_and_level 117 (str "1") true sample_service
           [str "iniciante"; str "avançado"; str "iniciante";
            str "intermediário"; str "avançado"]).
  - reflexivity.
  - repeat constructor.
Defined.


(** *** The flow *)

(** What [onComplete] is given when it is called in state [st]. *)
Definition summary (st : state) : AssessmentResult :=
  {| result_userId := userId st;
     result_knowledgeGaps := knowledgeGaps st;
     result_preferredFormat := preferredFormat st;
     result_level := userLevel st |}.

(** What the handlers of the question screens keep: the user, the step,
    and the gaps found so far. *)
Definition keeps (st st' : state) : Prop :=
  userId st' = userId st
  /\ currentStep st' = currentStep st
  /\ exists extra, knowledgeGaps st' = knowledgeGaps st ++ extra.

Lemma keeps_refl st : keeps st st.
Proof. repeat split. exists []. now rewrite app_nil_r. Qed.

Lemma keeps_trans st1 st2 st3 : keeps st1 st2 -> keeps st2 st3 -> keeps st1 st3.
Proof.
  intros (U1 & S1 & x1 & G1) (U2 & S2 & x2 & G2).
  repeat split; try congruence.
  exists (x1 ++ x2). now rewrite G2, G1, app_assoc.
Qed.

Lemma keeps_gap st topic :
  keeps st (set_knowledgeGaps st (knowledgeGaps st ++ [topic])).
Proof. repeat split. now exists [topic]. Qed.

Lemma updateUserLevel_keeps st qs : keeps st (updateUserLevel st qs).
Proof.
  unfold updateUserLevel. cbv zeta.
  destruct (filter _ qs); [apply keeps_refl|].
  repeat split. exists []. cbn. now rewrite app_nil_r.
Qed.

Section Flow.

Variable P : props.
Variable analyzeQuery : AnalyzeRequest -> option jsstring.

(** Whether the analysis adds the topic of [q] to the gaps. *)
Definition flagged (closure : state) (q : Question) : bool :=
  match analyzeQuery
          {| query := analysis_query q;
             user_level := userLevel closure;
             preferred_format := preferredFormat closure;
             request_user_id := userId closure |} with
  | Some response =>
      (includes (toLowerCase response) (str "incorreto")
       || includes (toLowerCase response) (str "incompleto"))
      && negb (arr_includes (knowledgeGaps closure) (gap_topic q))
  | None => false
  end.

Lemma analyse_keeps closure qs st :
  keeps st (fst (analyse analyzeQuery closure st qs)).
Proof.
  revert st; induction qs as [|q qs IH]; intros st; cbn [analyse].
  - apply keeps_refl.
  - destruct (analyzeQuery _) as [response|]; [|apply keeps_refl].
    cbv zeta.
    destruct (_ || _); [destruct (negb _)|]; try apply IH.
    eapply keeps_trans; [apply keeps_gap | apply IH].
Qed.

Lemma completeAssessment_facts closure w qs :
  keeps (ui w) (ui (completeAssessment P analyzeQuery closure w qs))
  /\ (calls (completeAssessment P analyzeQuery closure w qs) = calls w
      \/ calls (completeAssessment P analyzeQuery closure w qs)
         = calls w ++ [summary closure]).
Proof.
  unfold completeAssessment. cbv zeta.
  match goal with
  | |- context [analyse _ _ _ ?l] =>
      pose proof (analyse_keeps closure l (ui w)) as Hk;
      destruct (analyse analyzeQuery closure (ui w) l) as [st ok]
  end.
  cbn [fst] in Hk. destruct ok; cbn [ui calls].
  - split; [exact Hk|]. destruct (onComplete P); [right | left]; reflexivity.
  - split; [exact Hk | now left].
Qed.

Lemma handleAnswer_facts w a :
  keeps (ui w) (ui (handleAnswer P analyzeQuery w a))
  /\ (calls (handleAnswer P analyzeQuery w a) = calls w
      \/ calls (handleAnswer P analyzeQuery w a)
         = calls w ++ [summary (ui w)]).
Proof.
  unfold handleAnswer. cbv zeta.
  destruct (currentQuestion (ui w)) as [cq|]; [|split; [apply keeps_refl | now left]].
  set (st2 := if includes (text cq) (str "formato você prefere")
              then _ else _).
  assert (H2 : keeps (ui w) st2).
  { subst st2. destruct (includes (text cq) _); repeat split;
      exists []; cbn; now rewrite app_nil_r. }
  set (st3 := if includes (text cq) (str "nível de conhecimento em")
              then _ else _).
  assert (H3 : match st3 with
               | Some st => keeps (ui w) st
               | None => True
               end).
  { subst st3. destruct (includes (text cq) (str "nível de conhecimento em"));
      [|exact H2].
    destruct (nth_error _ 1); [|exact I].
    cbv zeta.
    eapply keeps_trans; [|apply updateUserLevel_keeps].
    destruct (eqb a _); [|exact H2].
    eapply keeps_trans; [exact H2 | apply keeps_gap]. }
  destruct st3 as [st|]; [|split; [exact H2 | now left]].
  destruct (Nat.ltb _ _).
  - split; [|now left]. destruct H3 as (U & S & x & G).
    repeat split; cbn; try assumption. now exists x.
  - match goal with
    | |- context [completeAssessment _ _ ?c ?w0 ?q] =>
        destruct (completeAssessment_facts c w0 q) as [Hk Hc]
    end.
    cbn [ui calls] in Hk, Hc. split; [|exact Hc].
    eapply keeps_trans; [exact H3 | exact Hk].
Qed.

(** The state after the effect: on the first screen only without a user
    id. *)
Definition id_pending (w : world) : Prop :=
  currentStep (ui w) = 0%nat -> userId (ui w) = [].

Lemma run_effect_facts w :
  id_pending (run_effect w)
  /\ knowledgeGaps (ui (run_effect w)) = knowledgeGaps (ui w)
  /\ calls (run_effect w) = calls w
  /\ (currentStep (ui w) <> 0%nat -> run_effect w = w)
  /\ (currentStep (ui w) = 0%nat -> is_empty (userId (ui w)) = false ->
      run_effect w
      = {| ui := generateInitialQuestions (ui w); calls := calls w |}).
Proof.
  unfold run_effect, id_pending.
  destruct (Nat.eqb_spec (currentStep (ui w)) 0) as [E|E]; cbn [andb].
  - destruct (userId (ui w)) as [|c u] eqn:Eu; cbn [truthy is_empty negb].
    + repeat split; intros; try congruence; discriminate.
    + repeat split; intros; try congruence. discriminate.
  - repeat split; intros; congruence.
Qed.

Lemma handle_facts w ev :
  (exists extra,
      knowledgeGaps (ui (handle P analyzeQuery w ev))
      = knowledgeGaps (ui w) ++ extra)
  /\ (calls (handle P analyzeQuery w ev) = calls w
      \/ (calls (handle P analyzeQuery w ev) = calls w ++ [summary (ui w)]
          /\ (ev = ClickNext \/ ev = ClickContinue)))
  /\ (currentStep (ui w) <> 0%nat ->
      userId (ui (handle P analyzeQuery w ev)) = userId (ui w)
      /\ currentStep (ui (handle P analyzeQuery w ev)) = currentStep (ui w)).
Proof.
  assert (Hsame : forall w', ui w' = ui w -> calls w' = calls w ->
    (exists extra, knowledgeGaps (ui w') = knowledgeGaps (ui w) ++ extra)
    /\ (calls w' = calls w
        \/ (calls w' = calls w ++ [summary (ui w)]
            /\ (ev = ClickNext \/ ev = ClickContinue)))
    /\ (currentStep (ui w) <> 0%nat ->
        userId (ui w') = userId (ui w)
        /\ currentStep (ui w') = currentStep (ui w))).
  { intros w' -> ->. repeat split; [|now left].
    exists []. now rewrite app_nil_r. }
  destruct ev; cbn [handle].
  - unfold initial_screen.
    destruct (Nat.eqb_spec (currentStep (ui w)) 0) as [E|E];
      [|rewrite andb_false_r; now apply Hsame].
    destruct (negb (isLoading (ui w))); [|now apply Hsame].
    cbn. repeat split; try congruence; [|now left].
    exists []. now rewrite app_nil_r.
  - unfold initial_screen.
    destruct (Nat.eqb_spec (currentStep (ui w)) 0) as [E|E];
      [|rewrite andb_false_r; now apply Hsame].
    destruct (_ && _); [|now apply Hsame].
    unfold startAssessment. destruct (is_empty _); cbn;
      (repeat split; try congruence; [|now left]);
      exists []; now rewrite app_nil_r.
  - destruct (input_shown _); [|now apply Hsame].
    cbn. repeat split; [|now left]. exists []. now rewrite app_nil_r.
  - destruct (next_enabled (ui w)); [|now apply Hsame].
    destruct (handleAnswer_facts w (userInput (ui w)))
      as [(U & S & x & G) Hc].
    split; [now exists x|]. split; [|now split].
    destruct Hc as [Hc|Hc]; [now left | right; split; [exact Hc | now left]].
  - destruct (completion_screen (ui w)); [|now apply Hsame].
    unfold continueToContent. destruct (onComplete P); [|now apply Hsame].
    cbn. split; [exists []; now rewrite app_nil_r|].
    split; [right; split; [reflexivity | now right] | now split].
Qed.

Lemma step_facts_more w ev :
  id_pending (step P analyzeQuery w ev)
  /\ (exists extra,
        knowledgeGaps (ui (step P analyzeQuery w ev))
        = knowledgeGaps (ui w) ++ extra)
  /\ (calls (step P analyzeQuery w ev) = calls w
      \/ (calls (step P analyzeQuery w ev) = calls w ++ [summary (ui w)]
          /\ (ev = ClickNext \/ ev = ClickContinue)))
  /\ (currentStep (ui w) <> 0%nat ->
      userId (ui (step P analyzeQuery w ev)) = userId (ui w)
      /\ currentStep (ui (step P analyzeQuery w ev)) = currentStep (ui w)).
Proof.
  unfold step.
  destruct (run_effect_facts (handle P analyzeQuery w ev))
    as (Hj & Hg & Hc & Hid & _).
  destruct (handle_facts w ev) as (Hg' & Hc' & Hu').
  split; [exact Hj|]. rewrite Hg, Hc. split; [exact Hg'|].
  split; [exact Hc'|]. intros Hs. destruct (Hu' Hs) as [U S].
  rewrite Hid; [now split | congruence].
Qed.

Lemma run_id_pending trace : id_pending (run P analyzeQuery trace).
Proof.
  destruct trace as [|ev trace _] using rev_ind.
  - apply run_effect_facts.
  - unfold run. rewrite fold_left_app. cbn [fold_left].
    apply step_facts_more.
Qed.

(** X21: the user id and the start of the assessment.  In every state
    the component can be in, the first screen is only shown with an empty
    user id, so its button "Iniciar Avaliação" does nothing; the first
    non-empty value typed into the id field becomes the user id and at
    once brings up the first question; and from then on no event changes
    the user id or leads back to the first screen. *)
Theorem assessment_starts_with_user_id (trace : list event) :
  let w := run P analyzeQuery trace in
  (currentStep (ui w) = 0%nat -> userId (ui w) = [])
  /\ handle P analyzeQuery w ClickStart = w
  /\ (forall u, initial_screen (ui w) = true -> is_empty u = false ->
      let w' := step P analyzeQuery w (TypeUserId u) in
      userId (ui w') = u
      /\ currentStep (ui w') = 1%nat
      /\ currentQuestion (ui w') = hd_error generatedQuestions
      /\ initial_screen (ui w') = false)
  /\ (currentStep (ui w) <> 0%nat -> forall ev,
      userId (ui (step P analyzeQuery w ev)) = userId (ui w)
      /\ currentStep (ui (step P analyzeQuery w ev)) = currentStep (ui w)).
Proof.
  cbv zeta. pose proof (run_id_pending trace) as Hj.
  set (w := run P analyzeQuery trace) in *. unfold id_pending in Hj.
  split; [exact Hj|]. split; [|split].
  - cbn [handle]. unfold initial_screen.
    destruct (Nat.eqb_spec (currentStep (ui w)) 0) as [E|E];
      [|now rewrite andb_false_r].
    rewrite (Hj E). cbn. now rewrite andb_false_r.
  - intros u Hi Hu. unfold step. cbn [handle]. rewrite Hi.
    unfold initial_screen in Hi. apply andb_true_iff in Hi as [_ Hs].
    apply Nat.eqb_eq in Hs.
    destruct (run_effect_facts {| ui := set_userId (ui w) u; calls := calls w |})
      as (_ & _ & _ & _ & Hgo).
    rewrite Hgo; [|exact Hs | exact Hu].
    cbn. repeat split. apply andb_false_r.
  - intros Hs ev. now apply step_facts_more.
Qed.

(** X22: what the parent is told.  An event makes at most one call to
    [onComplete]; only "Próxima" and the button of the completion screen
    make one; and the call carries the user, gaps, format and level as
    they were before the event, so that what the component shows after
    the event extends the gaps the parent was given. *)
Theorem onComplete_gets_state_before_event (w : world) (ev : event) :
  let w' := step P analyzeQuery w ev in
  (calls w' = calls w
   \/ (calls w' = calls w ++ [summary (ui w)]
       /\ (ev = ClickNext \/ ev = ClickContinue)))
  /\ exists extra,
       knowledgeGaps (ui w') = result_knowledgeGaps (summary (ui w)) ++ extra.
Proof.
  cbv zeta. destruct (step_facts_more w ev) as (_ & Hg & Hc & _).
  split; [exact Hc | exact Hg].
Qed.

(** X23: the gaps are only ever extended: what they are at some point
    of a run is a prefix of what they are later. *)
Theorem knowledgeGaps_only_grow (trace more : list event) :
  exists extra,
    knowledgeGaps (ui (run P analyzeQuery (trace ++ more)))
    = knowledgeGaps (ui (run P analyzeQuery trace)) ++ extra.
Proof.
  unfold run. rewrite fold_left_app.
  generalize (fold_left (step P analyzeQuery) trace (mount P)).
  induction more as [|ev more IH]; intros w; cbn [fold_left].
  - exists []. now rewrite app_nil_r.
  - destruct (step_facts_more w ev) as (_ & [x Hx] & _).
    destruct (IH (step P analyzeQuery w ev)) as [y Hy].
    exists (x ++ y). now rewrite Hy, Hx, app_assoc.
Qed.

(** X24: the analysis of the open answers.  When every call to the
    service succeeds, the gaps after the loop are the gaps before it
    followed by the topic of each answer the service calls incorrect or
    incomplete, unless that topic was a gap when the handler started:
    topics are checked against the gaps of the closure only, so a topic
    found twice during the loop is added twice. *)
Theorem analyse_appends_flagged_topics
  (closure st : state) (qs : list Question) :
  snd (analyse analyzeQuery closure st qs) = true ->
  knowledgeGaps (fst (analyse analyzeQuery closure st qs))
  = knowledgeGaps st ++ map gap_topic (filter (flagged closure) qs).
Proof.
  revert st; induction qs as [|q qs IH]; intros st; cbn [analyse filter].
  - intros _. cbn. now rewrite app_nil_r.
  - unfold flagged at 1.
    destruct (analyzeQuery _) as [response|]; [|intros H; discriminate H].
    cbv zeta. intros H.
    destruct (_ || _); cbn [andb].
    + destruct (negb _).
      * rewrite (IH _ H). cbn [map knowledgeGaps set_knowledgeGaps].
        now rewrite <- app_assoc.
      * now apply IH.
    + now apply IH.
Qed.

End Flow.

Lemma analyse_appends_flagged_topics_witness :
  knowledgeGaps
    (fst (analyse (fun _ => Some (str "Incorreto."))
            (initial_state sample_props) (initial_state sample_props)
            knowledgeQuestions))
  = knowledgeGaps (initial_state sample_props)
      ++ map gap_topic
           (filter (flagged (fun _ => Some (str "Incorreto."))
                      (initial_state sample_props))
              knowledgeQuestions).
Proof.
  apply (analyse_appends_flagged_topics (fun _ => Some (str "Incorreto."))
           (initial_state sample_props) (initial_state sample_props)
           knowledgeQuestions).
  vm_compute. reflexivity.
Defined.

End InteractivePromptMore.

(** ** Properties of the learning page *)

Module LearningPageSpec.
Import JS InteractivePrompt InteractivePromptSpec InteractivePromptMore.
Import LearningPage.

Section PageFlow.

Variable analyzeQuery : AnalyzeRequest -> option jsstring.

Lemma prompt_run_snoc trace ev :
  run prompt_props analyzeQuery (trace ++ [ev])
  = step prompt_props analyzeQuery (run prompt_props analyzeQuery trace) ev.
Proof. unfold run. now rewrite fold_left_app. Qed.

Lemma page_run_snoc trace ev :
  page_run analyzeQuery (trace ++ [ev])
  = page_step analyzeQuery (page_run analyzeQuery trace) ev.
Proof. unfold page_run. now rewrite fold_left_app. Qed.

(** A complete assessment has told the parent. *)
Lemma complete_has_call trace :
  InteractivePrompt.assessmentComplete
    (ui (run prompt_props analyzeQuery trace)) = true ->
  calls (run prompt_props analyzeQuery trace) <> [].
Proof.
  induction trace as [|ev trace IH] using rev_ind.
  - intros H. vm_compute in H. discriminate H.
  - rewrite prompt_run_snoc.
    pose proof (run_inv prompt_props analyzeQuery eq_refl trace) as Hinv.
    destruct (step_facts prompt_props analyzeQuery eq_refl _ ev Hinv)
      as (_ & H2 & H3).
    intros Hc.
    destruct (InteractivePrompt.assessmentComplete
                (ui (run prompt_props analyzeQuery trace))) eqn:E.
    + destruct (H3 eq_refl) as [_ Hl]. specialize (IH eq_refl).
      intros Hnil. rewrite Hnil in Hl. cbn [length] in Hl.
      destruct (calls (run prompt_props analyzeQuery trace));
        [congruence | cbn [length] in Hl; lia].
    + destruct (H2 eq_refl Hc) as [_ Hl].
      intros Hnil. rewrite Hnil in Hl. discriminate Hl.
Qed.

(** The invariant of the page. *)
Definition page_inv (trace : list event) (pg : page) : Prop :=
  if assessmentComplete pg then
    exists before after,
      trace = before ++ ClickNext :: after
      /\ assessmentResult pg
         = Some (summary (ui (run prompt_props analyzeQuery before)))
      /\ learning_plan (page_run analyzeQuery before) = None
  else
    assessmentResult pg = None
    /\ prompt pg = run prompt_props analyzeQuery trace
    /\ calls (prompt pg) = [].

Lemma page_run_inv trace : page_inv trace (page_run analyzeQuery trace).
Proof.
  induction trace as [|ev trace IH] using rev_ind.
  - unfold page_inv. cbn. repeat split.
  - rewrite page_run_snoc. unfold page_inv in IH |- *. unfold page_step.
    destruct (assessmentComplete (page_run analyzeQuery trace)) eqn:E.
    + cbv iota. rewrite E. destruct IH as (before & after & -> & Hr & Hp).
      exists before, (after ++ [ev]). rewrite <- app_assoc. now repeat split.
    + destruct IH as (Hr & Hp & Hc). cbv zeta. rewrite Hc, Hp.
      cbn [length skipn]. rewrite <- prompt_run_snoc.
      pose proof (run_inv prompt_props analyzeQuery eq_refl (trace ++ [ev]))
        as [_ Hquiet].
      destruct (step_facts_more prompt_props analyzeQuery
                  (run prompt_props analyzeQuery trace) ev)
        as (_ & _ & Hcalls & _).
      rewrite <- prompt_run_snoc in Hcalls. rewrite <- Hp, Hc in Hcalls.
      cbn [app] in Hcalls.
      destruct Hcalls as [Hsame | [Hone Hev]].
      * rewrite Hsame. cbn [fold_left assessmentComplete assessmentResult prompt].
        now repeat split.
      * rewrite Hone. cbn [fold_left handleAssessmentComplete
                             assessmentComplete assessmentResult].
        exists trace, []. rewrite Hp.
        split; [|split; [reflexivity | unfold learning_plan; now rewrite E]].
        f_equal. f_equal.
        assert (Hnow : InteractivePrompt.assessmentComplete
                         (ui (run prompt_props analyzeQuery (trace ++ [ev])))
                       = true).
        { destruct (InteractivePrompt.assessmentComplete
                      (ui (run prompt_props analyzeQuery (trace ++ [ev]))))
            eqn:En; [reflexivity|].
          rewrite (Hquiet eq_refl) in Hone. discriminate Hone. }
        assert (Hbefore : InteractivePrompt.assessmentComplete
                            (ui (run prompt_props analyzeQuery trace)) = false).
        { destruct (InteractivePrompt.assessmentComplete
                      (ui (run prompt_props analyzeQuery trace))) eqn:Eb;
            [|reflexivity].
          exfalso. apply (complete_has_call trace Eb). now rewrite <- Hp. }
        pose proof (run_inv prompt_props analyzeQuery eq_refl trace) as Hinv.
        destruct (step_facts prompt_props analyzeQuery eq_refl _ ev Hinv)
          as (_ & H2 & _).
        rewrite <- prompt_run_snoc in H2.
        now destruct (H2 Hbefore Hnow) as [-> _].
Qed.

Lemma page_run_done trace more :
  assessmentComplete (page_run analyzeQuery trace) = true ->
  page_run analyzeQuery (trace ++ more) = page_run analyzeQuery trace.
Proof.
  unfold page_run. rewrite fold_left_app. generalize (fold_left (page_step analyzeQuery) trace page_mount).
  induction more as [|ev more IH]; intros pg Hpg; [reflexivity|].
  cbn [fold_left]. unfold page_step at 2. rewrite Hpg. now apply IH.
Qed.

(** X25: the learning page.  As long as the page shows the prompt, the
    prompt has not called back.  The learning plan the page then shows,
    if any, is the one call the page has received: it was made by a
    press of "Próxima", it carries the user, gaps, format and level the
    prompt had before that press, and no later event changes it. *)
Theorem learning_plan_is_state_before_last_answer (trace : list event) :
  let pg := page_run analyzeQuery trace in
  (learning_plan pg = None ->
   assessmentComplete pg = false
   /\ prompt pg = run prompt_props analyzeQuery trace
   /\ calls (prompt pg) = [])
  /\ (forall r, learning_plan pg = Some r ->
      exists before after,
        trace = before ++ ClickNext :: after
        /\ r = summary (ui (run prompt_props analyzeQuery before))
        /\ learning_plan (page_run analyzeQuery before) = None
        /\ forall more,
             learning_plan (page_run analyzeQuery (trace ++ more)) = Some r).
Proof.
  cbv zeta. pose proof (page_run_inv trace) as Hinv.
  unfold page_inv, learning_plan in *.
  destruct (assessmentComplete (page_run analyzeQuery trace)) eqn:E.
  - destruct Hinv as (before & after & Ht & Hr & Hp). split.
    + rewrite Hr. intros H; discriminate H.
    + intros r Hr'. rewrite Hr in Hr'. injection Hr' as <-.
      exists before, after. repeat split; try assumption.
      intros more. rewrite (page_run_done trace more E), E. exact Hr.
  - destruct Hinv as (Hr & Hp & Hc). split; [now intros _|].
    intros r H; discriminate H.
Qed.

End PageFlow.

End LearningPageSpec.

(** ** Properties of [AdaptiveLearningContent.tsx] *)

Module AdaptiveLearningContentSpec.
Import JS AdaptiveLearningContent.

Section NavigationFacts.

Variable knowledgeGaps : list jsstring.

Lemma nav_step_bound s ev :
  (currentGapIndex s <= length knowledgeGaps - 1)%nat ->
  (currentGapIndex (nav_step knowledgeGaps s ev) <= length knowledgeGaps - 1)%nat.
Proof.
  intros H. destruct ev; cbn [nav_step].
  - unfold navigateToNextGap.
    destruct (Nat.ltb_spec (currentGapIndex s + 1) (length knowledgeGaps));
      [cbn; lia | exact H].
  - unfold navigateToPreviousGap.
    destruct (Nat.ltb_spec 0 (currentGapIndex s)); [cbn; lia | exact H].
  - exact H.
Qed.

Lemma nav_run_bound trace :
  (currentGapIndex (nav_run knowledgeGaps trace) <= length knowledgeGaps - 1)%nat.
Proof.
  unfold nav_run.
  assert (H0 : (currentGapIndex nav_init <= length knowledgeGaps - 1)%nat)
    by (cbn; lia).
  revert H0. generalize nav_init.
  induction trace as [|ev trace IH]; intros s H; [exact H|].
  cbn [fold_left]. apply IH. now apply nav_step_bound.
Qed.

(** X26: moving between the gaps.  With at least one gap the current
    gap is always defined, whatever buttons are pressed; a press that
    changes the gap always lands in content mode; and "Próximo Tópico"
    followed by "Tópico Anterior" comes back to the same gap. *)
Theorem current_gap_always_defined (trace : list nav_event) :
  knowledgeGaps <> [] ->
  let s := nav_run knowledgeGaps trace in
  (exists gap, currentGap knowledgeGaps s = Some gap)
  /\ (forall ev,
        currentGapIndex (nav_step knowledgeGaps s ev) <> currentGapIndex s ->
        exerciseMode (nav_step knowledgeGaps s ev) = false)
  /\ (navigateToNextGap knowledgeGaps s <> s ->
      currentGapIndex
        (navigateToPreviousGap (navigateToNextGap knowledgeGaps s))
      = currentGapIndex s).
Proof.
  intros Hne. cbv zeta. pose proof (nav_run_bound trace) as Hb.
  set (s := nav_run knowledgeGaps trace) in *. split; [|split].
  - unfold currentGap.
    destruct (nth_error knowledgeGaps (currentGapIndex s)) as [g|] eqn:E;
      [now exists g|].
    apply nth_error_None in E.
    destruct knowledgeGaps; [congruence | cbn [length] in *; lia].
  - intros ev. destruct ev; cbn [nav_step].
    + unfold navigateToNextGap. destruct (Nat.ltb _ _); [reflexivity | congruence].
    + unfold navigateToPreviousGap. destruct (Nat.ltb _ _); [reflexivity | congruence].
    + cbn. congruence.
  - unfold navigateToNextGap.
    destruct (Nat.ltb (currentGapIndex s + 1) (length knowledgeGaps));
      [|congruence].
    intros _. unfold navigateToPreviousGap. cbn [currentGapIndex].
    destruct (Nat.ltb_spec 0 (currentGapIndex s + 1)); cbn; lia.
Qed.

End NavigationFacts.

Lemma current_gap_always_defined_witness :
  let s := nav_run [str "HTML"; str "CSS"] [NextGap; ToggleMode; PreviousGap] in
  (exists gap, currentGap [str "HTML"; str "CSS"] s = Some gap)
  /\ (forall ev,
        currentGapIndex (nav_step [str "HTML"; str "CSS"] s ev)
        <> currentGapIndex s ->
        exerciseMode (nav_step [str "HTML"; str "CSS"] s ev) = false)
  /\ (navigateToNextGap [str "HTML"; str "CSS"] s <> s ->
      currentGapIndex
        (navigateToPreviousGap (navigateToNextGap [str "HTML"; str "CSS"] s))
      = currentGapIndex s).
Proof.
  apply (current_gap_always_defined [str "HTML"; str "CSS"]
           [NextGap; ToggleMode; PreviousGap]).
  discriminate.
Defined.

End AdaptiveLearningContentSpec.

(** ** Properties of [MediaContentViewer.tsx] *)

Module MediaContentViewerSpec.
Import JS JSFacts MediaUtils MediaUtilsSpec AdaptiveResponseView MediaContentViewer.

Lemma defaultPaths_nonempty format : is_empty (defaultPaths format) = false.
Proof. destruct format; reflexivity. Qed.

Lemma path_of_nonempty format filePath :
  is_empty (path_of format filePath) = false.
Proof.
  unfold path_of. destruct (or_empty filePath) as [|c p] eqn:E;
    cbn [truthy is_empty negb]; [apply defaultPaths_nonempty | reflexivity].
Qed.

Lemma validateMediaUrl_nonempty env url :
  is_empty url = false ->
  exists r, validateMediaUrl env url = Some r /\ is_empty r = false.
Proof.
  intros Hne. unfold validateMediaUrl. rewrite Hne.
  destruct (is_absolute_url url); [now exists url|].
  cbv zeta. destruct (startsWith url root_marker).
  - eexists; split; [reflexivity|]. apply is_empty_app_l, apiUrl_nonempty.
  - destruct (cleanPath_of_defined url) as [p ->].
    eexists; split; [reflexivity|]. apply is_empty_app_l, apiUrl_nonempty.
Qed.

(** X27: the media viewer never shows an error box: whatever the format
    and the file path, it shows the block of the format on the
    normalized URL of the path, or of the default path of the format when
    no path is given; the block depends on the format alone, not on the
    extension of the file. *)
Theorem viewer_always_shows_media
  (env : option jsstring) (format : MediaFormat) (filePath : option jsstring) :
  exists mediaUrl,
    validateMediaUrl env (path_of format filePath) = Some mediaUrl
    /\ is_empty mediaUrl = false
    /\ MediaContentViewer env format filePath
       = media (block_of format mediaUrl)
    /\ (truthy (or_empty filePath) = false ->
        path_of format filePath = defaultPaths format).
Proof.
  destruct (validateMediaUrl_nonempty env _ (path_of_nonempty format filePath))
    as (r & Hr & Hne).
  exists r. split; [exact Hr|]. split; [exact Hne|]. split.
  - unfold MediaContentViewer. rewrite Hr. unfold truthy. now rewrite Hne.
  - intros H. unfold path_of. now rewrite H.
Qed.

End MediaContentViewerSpec.
